(** * codeintel-unused-import-remover: detection and removal of unused imports

    A shallow embedding of [src/main.py].  The Python text, the syntax tree
    that [ast.parse] returns, the breadth-first traversal of [ast.walk], the
    file store and the logging calls are modelled as the program uses them;
    the two functions [find_unused_imports] and [remove_unused_imports] and
    the driver [main] are transcribed statement by statement. *)

From Stdlib Require Import ZArith Ascii String List Lia Sorted.
From stdpp Require Import gmap strings list sorting.

Import ListNotations.

(** ** Python [str] operations used by the program

    A Python [str] is modelled as a [string] whose characters are the code
    points below 256; positions and lengths are Python integers, hence [Z].
    Only the operations the source calls are given, with the index
    conventions of the language (a negative index counts from the end,
    indices are clipped to the length). *)

Module PyStr.

Definition newline : ascii := "010"%char.
Definition nl : string := String newline EmptyString.

Definition len (s : string) : Z := Z.of_nat (String.length s).

(** Clipping of a slice bound, as slicing, [find] and [rfind] all do. *)
Definition adjust_index (i n : Z) : Z :=
  if (i <? 0)%Z then Z.max 0 (i + n) else Z.min i n.

(** [s[start:stop]]; [start = None] is the omitted bound of [s[:stop]]. *)
Definition slice (s : string) (start : option Z) (stop : Z) : string :=
  let n := len s in
  let a := adjust_index (default 0%Z start) n in
  let b := adjust_index stop n in
  String.substring (Z.to_nat a) (Z.to_nat (b - a)) s.

(** Lowest position of [c] in [s], counted from [i]; [-1] when absent. *)
Fixpoint index_first (c : ascii) (s : string) (i : Z) : Z :=
  match s with
  | EmptyString => (-1)%Z
  | String x r => if Ascii.eqb x c then i else index_first c r (i + 1)%Z
  end.

(** Highest position of [c] in [s], counted from [i]; [-1] when absent. *)
Fixpoint index_last (c : ascii) (s : string) (i : Z) : Z :=
  match s with
  | EmptyString => (-1)%Z
  | String x r =>
      let k := index_last c r (i + 1)%Z in
      if (0 <=? k)%Z then k else if Ascii.eqb x c then i else (-1)%Z
  end.

(** [s.find(c, start)] for a one-character needle. *)
Definition find (s : string) (c : ascii) (start : Z) : Z :=
  let n := len s in
  let a := adjust_index start n in
  index_first c (String.substring (Z.to_nat a) (Z.to_nat (n - a)) s) a.

(** [s.rfind(c, start, stop)] for a one-character needle. *)
Definition rfind (s : string) (c : ascii) (start stop : Z) : Z :=
  let n := len s in
  let a := adjust_index start n in
  let b := adjust_index stop n in
  index_last c (String.substring (Z.to_nat a) (Z.to_nat (b - a)) s) a.

(** [s.endswith(suffix)]. *)
Definition endswith (s suffix : string) : bool :=
  let n := String.length s in
  let m := String.length suffix in
  (m <=? n)%nat && String.eqb (String.substring (n - m) m s) suffix.

(** Characters that [str.strip()] removes: the white space of Unicode
    among the code points below 256, that is U+0009 to U+000D, U+001C to
    U+0020, U+0085 and U+00A0. *)
Definition isspace (c : ascii) : bool :=
  let k := nat_of_ascii c in
  ((9 <=? k)%nat && (k <=? 13)%nat) || ((28 <=? k)%nat && (k <=? 32)%nat)
  || (k =? 133)%nat || (k =? 160)%nat.

Fixpoint lstrip (s : string) : string :=
  match s with
  | String c r => if isspace c then lstrip r else s
  | EmptyString => EmptyString
  end.

Fixpoint rstrip (s : string) : string :=
  match s with
  | EmptyString => EmptyString
  | String c r =>
      match rstrip r with
      | EmptyString => if isspace c then EmptyString else String c EmptyString
      | r' => String c r'
      end
  end.

Definition strip (s : string) : string := rstrip (lstrip s).

(** [f.readlines()] on the text of a file: the text is cut after every
    newline, each line keeps its terminator, and a last line without a
    terminator is kept as it is. *)
Fixpoint readlines (s : string) : list string :=
  match s with
  | EmptyString => []
  | String c r =>
      if Ascii.eqb c newline then String c EmptyString :: readlines r
      else match readlines r with
           | [] => [String c EmptyString]
           | l :: ls => String c l :: ls
           end
  end.

(** Reading in text mode with the default [newline=None]: the terminators
    CR LF and CR of the file are handed to the program as LF. *)
Definition carriage_return : ascii := "013"%char.

Fixpoint universal_newlines (s : string) : string :=
  match s with
  | EmptyString => EmptyString
  | String c r =>
      if Ascii.eqb c carriage_return then
        match r with
        | String c' r' =>
            if Ascii.eqb c' newline
            then String newline (universal_newlines r')
            else String newline (universal_newlines r)
        | EmptyString => String newline EmptyString
        end
      else String c (universal_newlines r)
  end.

(** Writing in text mode with the default [newline=None]: every LF of the
    text goes to the file as [os.linesep]. *)
Fixpoint translate_newlines (linesep s : string) : string :=
  match s with
  | EmptyString => EmptyString
  | String c r =>
      if Ascii.eqb c newline
      then String.append linesep (translate_newlines linesep r)
      else String c (translate_newlines linesep r)
  end.

(** [f.writelines(lines)] writes the lines one after the other. *)
Definition writelines (lines : list string) : string :=
  fold_right String.append EmptyString lines.

(** [enumerate(lines, start)]. *)
Fixpoint enumerate {A} (l : list A) (start : Z) : list (Z * A) :=
  match l with
  | [] => []
  | x :: r => (start, x) :: enumerate r (start + 1)%Z
  end.

End PyStr.

(** ** The syntax tree

    [ast.parse] yields a tree of [ast.AST] nodes.  The program looks at four
    kinds of node ([Name], [Attribute], [Import], [ImportFrom]); every other
    kind is opaque to it and only passes its children on to [ast.walk]. *)

Module Ast.

Inductive expr_context : Type := Load | Store | Del.

(** [ast.alias]: one name bound by an import statement. *)
Record alias : Type := Alias { name : string; asname : option string }.

#[warnings="-register-all"]
Inductive node : Type :=
| Name (id : string) (ctx : expr_context)
| Attribute (value : node) (attr : string) (ctx : expr_context)
| Import (names : list alias) (lineno col_offset end_col_offset : Z)
| ImportFrom (module : option string) (names : list alias) (level : Z)
             (lineno col_offset end_col_offset : Z)
| AliasNode (a : alias)
| CtxNode (c : expr_context)
| Other (children : list node).

(** [ast.iter_child_nodes]: the fields of a node that are nodes or lists
    of nodes, in field order. *)
Definition iter_child_nodes (n : node) : list node :=
  match n with
  | Name _ c => [CtxNode c]
  | Attribute v _ c => [v; CtxNode c]
  | Import names _ _ _ => map AliasNode names
  | ImportFrom _ names _ _ _ _ => map AliasNode names
  | AliasNode _ => []
  | CtxNode _ => []
  | Other children => children
  end.

(** Number of nodes of a tree, children of every kind included. *)
Fixpoint node_size (n : node) : nat :=
  match n with
  | Name _ _ => 2
  | Attribute v _ _ => 2 + node_size v
  | Import names _ _ _ => 1 + length names
  | ImportFrom _ names _ _ _ _ => 1 + length names
  | AliasNode _ => 1
  | CtxNode _ => 1
  | Other children =>
      1 + (fix sizes (l : list node) : nat :=
             match l with
             | [] => 0
             | c :: r => node_size c + sizes r
             end) children
  end.

Definition forest_size (l : list node) : nat :=
  fold_right (fun c acc => node_size c + acc) 0 l.

(** [ast.walk]: a queue holds the nodes still to be yielded; the first one
    is taken out, its children are appended at the end, and it is yielded.
    [fuel] bounds the number of iterations. *)
Fixpoint walk_queue (fuel : nat) (todo : list node) : list node :=
  match fuel with
  | O => []
  | S fuel' =>
      match todo with
      | [] => []
      | n :: rest => n :: walk_queue fuel' (rest ++ iter_child_nodes n)
      end
  end.

Definition walk_forest (todo : list node) : list node :=
  walk_queue (forest_size todo) todo.

Definition walk (tree : node) : list node := walk_forest [tree].

(** The nodes of a tree by depth: a level and then the children of its
    nodes, from left to right. *)
Fixpoint levels_from (fuel : nat) (level : list node) : list (list node) :=
  match fuel with
  | O => []
  | S fuel' =>
      match level with
      | [] => []
      | _ => level :: levels_from fuel' (flat_map iter_child_nodes level)
      end
  end.

Definition levels (tree : node) : list (list node) :=
  levels_from (node_size tree) [tree].

(** [n] occurs in the tree rooted at [root]. *)
Inductive occurs_in (root : node) : node -> Prop :=
| occurs_root : occurs_in root root
| occurs_child n c :
    occurs_in root n -> In c (iter_child_nodes n) -> occurs_in root c.

Definition is_import (n : node) : bool :=
  match n with
  | Import _ _ _ _ | ImportFrom _ _ _ _ _ _ => true
  | _ => false
  end.

End Ast.

(** ** The file store and the log

    A path names a regular file, a directory, or nothing.  A regular file
    holds its characters as they are on disk, line terminators included;
    text mode translates the terminators on reading and on writing, the
    latter to the [os.linesep] of the platform.  Every [logging] call is
    recorded with its level and the values it formats; every completed
    write is recorded with the characters put on disk. *)

Module World.

Inductive entry : Type :=
| Regular (content : string)
| Directory.

(** The platform decides [os.linesep]. *)
Inductive platform : Type := Posix | Windows.

Definition os_linesep (p : platform) : string :=
  match p with
  | Posix => PyStr.nl
  | Windows => String PyStr.carriage_return PyStr.nl
  end.

Inductive io_error : Type :=
| FileNotFoundError
| IsADirectoryError.

Inductive level : Type := INFO | WARNING | ERROR.

Inductive message : Type :=
| MsgFileNotFound (filepath : string)
| MsgErrorReading (filepath : string) (e : io_error)
| MsgSyntaxError (filepath : string) (e : string)
| MsgNoUnusedImports
| MsgDryRunHeader
| MsgDryRunLine (line_number : Z) (stripped : string)
| MsgRemovedFrom (filepath : string)
| MsgRemovedLine (line_number : Z) (stripped : string)
| MsgErrorWriting (filepath : string) (e : io_error)
| MsgDoesNotExist (filepath : string)
| MsgNoPyExtension (filepath : string).

Inductive event : Type :=
| Logged (l : level) (m : message)
| Wrote (filepath : string) (text : string).

Record world : Type := World {
  files : gmap string entry;
  trace : list event;
  os : platform
}.

Definition logging (l : level) (m : message) (w : world) : world :=
  World (files w) (trace w ++ [Logged l m]) (os w).

(** What text mode puts on disk for [text]. *)
Definition to_disk (p : platform) (text : string) : string :=
  PyStr.translate_newlines (os_linesep p) text.

(** [open(filepath, "r")] followed by reading the whole text. *)
Definition open_read (filepath : string) (w : world) : io_error + string :=
  match files w !! filepath with
  | Some (Regular content) => inr (PyStr.universal_newlines content)
  | Some Directory => inl IsADirectoryError
  | None => inl FileNotFoundError
  end.

(** [open(filepath, "w")] followed by writing [text]: the file is created
    or replaced. *)
Definition open_write (filepath text : string) (w : world) : io_error + world :=
  match files w !! filepath with
  | Some Directory => inl IsADirectoryError
  | _ => inr (World (<[filepath := Regular (to_disk (os w) text)]> (files w))
                    (trace w ++ [Wrote filepath (to_disk (os w) text)])
                    (os w))
  end.

(** [os.path.exists(filepath)]. *)
Definition exists_path (filepath : string) (w : world) : bool :=
  bool_decide (is_Some (files w !! filepath)).

End World.

(** ** The program *)

Module Main.

Import PyStr Ast World.

(** The record appended for an unused binding: [(lineno, import_statement)]. *)
Definition record : Type := Z * string.

(** Lines 70-78: the dotted name of an attribute chain, built from the
    outermost attribute down to the root; [None] when the root is not a
    [Name] (nothing is added then). *)
Fixpoint attribute_chain (current_node : node) (name : string) : option string :=
  match current_node with
  | Attribute value attr _ => attribute_chain value ("." +:+ attr +:+ name)
  | Name id _ => Some (id +:+ name)
  | _ => None
  end.

(** Lines 66-78: the body of the first loop, for one node. *)
Definition add_names (all_names : gset string) (n : node) : gset string :=
  match n with
  | Name id _ => {[ id ]} ∪ all_names
  | Attribute _ _ _ =>
      match attribute_chain n EmptyString with
      | Some name => {[ name ]} ∪ all_names
      | None => all_names
      end
  | _ => all_names
  end.

(** Lines 64-78. *)
Definition collect_names (tree : node) : gset string :=
  foldl add_names ∅ (walk tree).

(** Line 84: [alias.asname or alias.name]. *)
Definition imported_name (a : alias) : string :=
  match asname a with
  | Some (String c s) => String c s
  | _ => name a
  end.

(** Line 90. *)
Definition import_statement (content : string) (lineno : Z) : string :=
  if (lineno >? 1)%Z
  then slice content
             (Some (rfind content newline 0 (lineno - 1) + 1)%Z)
             (find content newline (lineno - 1))
  else slice content None (find content newline (lineno - 1)).

(** Lines 83-91: the records one import statement contributes. *)
Definition alias_records (content : string) (all_names : gset string)
    (lineno : Z) (names : list alias) : list record :=
  flat_map (fun a =>
              if decide (imported_name a ∈ all_names) then []
              else [(lineno, import_statement content lineno)]) names.

(** Lines 82-91: the body of the second loop, for one node. *)
Definition node_records (content : string) (all_names : gset string)
    (n : node) : list record :=
  match n with
  | Import names lineno _ _ => alias_records content all_names lineno names
  | ImportFrom _ names _ lineno _ _ =>
      alias_records content all_names lineno names
  | _ => []
  end.

(** Lines 64-92, once the text is read and parsed. *)
Definition unused_imports_of (content : string) (tree : node) : list record :=
  flat_map (node_records content (collect_names tree)) (walk tree).

(** The bindings behind the records: the statement and the alias of every
    record, in the order of the records. *)
Definition node_bindings (all_names : gset string) (n : node)
    : list (node * alias) :=
  match n with
  | Import names _ _ _ | ImportFrom _ names _ _ _ _ =>
      flat_map (fun a =>
                  if decide (imported_name a ∈ all_names) then []
                  else [(n, a)]) names
  | _ => []
  end.

Definition unused_bindings (tree : node) : list (node * alias) :=
  flat_map (node_bindings (collect_names tree)) (walk tree).

Definition stmt_lineno (n : node) : Z :=
  match n with
  | Import _ lineno _ _ | ImportFrom _ _ _ lineno _ _ => lineno
  | _ => 0
  end.

Definition record_of_binding (content : string) (b : node * alias) : record :=
  (stmt_lineno (fst b), import_statement content (stmt_lineno (fst b))).

(** Lines 115-121. *)
Definition lines_to_remove (unused_imports : list record) : gset Z :=
  foldl (fun s r => {[ fst r ]} ∪ s) ∅ unused_imports.

Definition new_lines (lines : list string) (unused_imports : list record)
    : list string :=
  map snd (filter (fun p => fst p ∉ lines_to_remove unused_imports)
                  (enumerate lines 1)).

Section Program.

(** [ast.parse]: the tree of a text, or the message of the [SyntaxError]. *)
Variable ast_parse : string -> string + node.

(** Lines 34-92. *)
Definition find_unused_imports (filepath : string) (aggressive : bool)
    (w : world) : (list record * option node) * world :=
  match open_read filepath w with
  | inl FileNotFoundError =>
      (([], None), logging ERROR (MsgFileNotFound filepath) w)
  | inl e => (([], None), logging ERROR (MsgErrorReading filepath e) w)
  | inr content =>
      match ast_parse content with
      | inl e => (([], None), logging ERROR (MsgSyntaxError filepath e) w)
      | inr tree => ((unused_imports_of content tree, Some tree), w)
      end
  end.

(** Lines 94-137. *)
Definition remove_unused_imports (filepath : string)
    (unused_imports : list record) (dry_run : bool) (w : world) : world :=
  match unused_imports with
  | [] => logging INFO MsgNoUnusedImports w
  | _ =>
      match open_read filepath w with
      | inl e => logging ERROR (MsgErrorReading filepath e) w
      | inr text =>
          let lines := readlines text in
          let kept := new_lines lines unused_imports in
          if dry_run then
            foldl (fun w r => logging INFO (MsgDryRunLine (fst r) (strip (snd r))) w)
                  (logging INFO MsgDryRunHeader w) unused_imports
          else
            match open_write filepath (writelines kept) w with
            | inl e => logging ERROR (MsgErrorWriting filepath e) w
            | inr w' =>
                foldl (fun w r => logging INFO (MsgRemovedLine (fst r) (strip (snd r))) w)
                      (logging INFO (MsgRemovedFrom filepath) w') unused_imports
            end
      end
  end.

Record arguments : Type := Args {
  arg_filepath : string;
  arg_dry_run : bool;
  arg_aggressive : bool
}.

(** Lines 140-165; the result is the exit status with the final world. *)
Definition main (args : arguments) (w : world) : Z * world :=
  let filepath := arg_filepath args in
  if negb (exists_path filepath w)
  then (1%Z, logging ERROR (MsgDoesNotExist filepath) w)
  else
    let w1 := if endswith filepath ".py" then w
              else logging WARNING (MsgNoPyExtension filepath) w in
    let '((unused_imports, _), w2) :=
      find_unused_imports filepath (arg_aggressive args) w1 in
    (0%Z, remove_unused_imports filepath unused_imports (arg_dry_run args) w2).

End Program.

End Main.

(** ** Notions used to state the properties *)

Module Spec.

Import PyStr Ast World Main.

(** The root identifier of an expression that is a bare identifier or an
    attribute chain. *)
Fixpoint chain_root (n : node) : option string :=
  match n with
  | Name id _ => Some id
  | Attribute value _ _ => chain_root value
  | _ => None
  end.

(** The aliases of an import statement. *)
Definition stmt_names (n : node) : list alias :=
  match n with
  | Import names _ _ _ | ImportFrom _ names _ _ _ _ => names
  | _ => []
  end.

(** The lines of [lines], taken by position from the first to the last,
    without those whose number is listed; the line at position [i]
    (counted from 0) has number [first + i]. *)
Definition lines_except_from (first : Z) (lines : list string)
    (numbers : list Z) : list string :=
  flat_map (fun i => if decide ((first + Z.of_nat i)%Z ∈ numbers) then []
                     else match lines !! i with
                          | Some line => [line]
                          | None => []
                          end)
           (seq 0 (length lines)).

(** The lines of a file without those whose 1-based number is listed. *)
Definition lines_except (lines : list string) (numbers : list Z) : list string :=
  lines_except_from 1 lines numbers.

(** The lines of a file as they are on disk: a line ends after LF, after
    CR LF, or after a CR that no LF follows, and keeps its terminator. *)
Fixpoint disk_lines (s : string) : list string :=
  match s with
  | EmptyString => []
  | String c r =>
      if Ascii.eqb c newline then String c EmptyString :: disk_lines r
      else if Ascii.eqb c carriage_return then
        match r with
        | String c' r' =>
            if Ascii.eqb c' newline
            then String c (String c' EmptyString) :: disk_lines r'
            else String c EmptyString :: disk_lines r
        | EmptyString => [String c EmptyString]
        end
      else match disk_lines r with
           | [] => [String c EmptyString]
           | l :: ls => String c l :: ls
           end
  end.

(** Every line terminator of the file is the [os.linesep] of the platform:
    reading the file and writing the text back gives the same file. *)
Definition native_newlines (p : platform) (disk : string) : Prop :=
  to_disk p (universal_newlines disk) = disk.

(** The writes recorded in a trace. *)
Definition writes (t : list event) : list (string * string) :=
  flat_map (fun e => match e with
                     | Wrote filepath text => [(filepath, text)]
                     | Logged _ _ => []
                     end) t.

(** A line that ends with its terminator and holds no other newline. *)
Inductive complete_line : string -> Prop :=
| complete_nl : complete_line nl
| complete_cons c l :
    c <> newline -> complete_line l -> complete_line (String c l).

(** A non-empty line without terminator. *)
Inductive open_line : string -> Prop :=
| open_one c : c <> newline -> open_line (String c EmptyString)
| open_cons c l : c <> newline -> open_line l -> open_line (String c l).

(** Lines as [readlines] returns them: only the last may lack a terminator. *)
Inductive lines_wf : list string -> Prop :=
| wf_nil : lines_wf []
| wf_last l : open_line l -> lines_wf [l]
| wf_cons l ls : complete_line l -> lines_wf ls -> lines_wf (l :: ls).

(** A list of records runs top to bottom. *)
Definition top_to_bottom (l : list record) : Prop :=
  Sorted Z.le (map fst l).

(** The import statements of one depth carry non-decreasing line numbers
    from left to right. *)
Definition level_in_source_order (level : list node) : Prop :=
  Sorted Z.le (map stmt_lineno (filter (fun n => is_import n = true) level)).

End Spec.

(** ** Sample files

    Texts with the trees [ast.parse] builds for them ([Module], [Expr],
    [FunctionDef] and [arguments] are nodes of the opaque kind). *)

Module Samples.

Import PyStr Ast World Main.

(** [import os] / [import sys]: two statements, both unused. *)
Definition two_imports_text : string :=
  "import os" +:+ nl +:+ "import sys" +:+ nl.

Definition two_imports_tree : node :=
  Other [ Import [Alias "os" None] 1 0 9;
          Import [Alias "sys" None] 2 0 10 ].

(** [def f():] / [    import a] / [import b]: an import statement inside a
    function, above one at module level. *)
Definition nested_text : string :=
  "def f():" +:+ nl +:+ "    import a" +:+ nl +:+ "import b" +:+ nl.

Definition nested_tree : node :=
  Other [ Other [ Other []; Import [Alias "a" None] 2 4 12 ];
          Import [Alias "b" None] 3 0 8 ].

(** [import a; b] / [import b]: the first line holds an unused import and
    the only reference to [b]. *)
Definition shared_line_text : string :=
  "import a; b" +:+ nl +:+ "import b" +:+ nl.

Definition shared_line_tree : node :=
  Other [ Import [Alias "a" None] 1 0 8;
          Other [ Name "b" Load ];
          Import [Alias "b" None] 2 0 8 ].

(** [import b]: what is left of the previous file without its first line. *)
Definition import_b_text : string := "import b" +:+ nl.

Definition import_b_tree : node := Other [ Import [Alias "b" None] 1 0 8 ].

(** [import os, sys] / [print(os.getcwd())]: one statement binding a used
    and an unused name. *)
Definition multi_text : string :=
  "import os, sys" +:+ nl +:+ "print(os.getcwd())" +:+ nl.

Definition multi_tree : node :=
  Other [ Import [Alias "os" None; Alias "sys" None] 1 0 14;
          Other [ Other [ Name "print" Load;
                          Other [ Attribute (Name "os" Load) "getcwd" Load ] ] ] ].

(** [import numpy as np] / [np.zeros(3)]: an alias used as a chain root. *)
Definition alias_text : string :=
  "import numpy as np" +:+ nl +:+ "np.zeros(3)" +:+ nl.

Definition alias_tree : node :=
  Other [ Import [Alias "numpy" (Some "np")] 1 0 18;
          Other [ Other [ Attribute (Name "np" Load) "zeros" Load; Other [] ] ] ].

(** [x = 1]: no import statement. *)
Definition no_import_text : string := "x = 1" +:+ nl.

Definition no_import_tree : node :=
  Other [ Other [ Name "x" Store; Other [] ] ].

(** [def f(:]: not a valid program. *)
Definition broken_text : string := "def f(:" +:+ nl.

(** [ast.parse] on the sample texts; any other text is rejected here. *)
Definition parse_samples (text : string) : string + node :=
  if String.eqb text two_imports_text then inr two_imports_tree
  else if String.eqb text nested_text then inr nested_tree
  else if String.eqb text shared_line_text then inr shared_line_tree
  else if String.eqb text import_b_text then inr import_b_tree
  else if String.eqb text multi_text then inr multi_tree
  else if String.eqb text alias_text then inr alias_tree
  else if String.eqb text no_import_text then inr no_import_tree
  else if String.eqb text EmptyString then inr (Other [])
  else inl "invalid syntax".

(** A store holding one file. *)
Definition one_file (filepath content : string) : world :=
  World {[ filepath := Regular content ]} [] Posix.

(** The command line [m.py], without [--dry-run] and [--aggressive]. *)
Definition plain_args : arguments := Args "m.py" false false.



End Samples.

(** ** Further notions and sample data *)

Module Notions.

Import PyStr Ast World Main Spec Samples.

(** The name the first loop adds for a node: the identifier of a [Name],
    the dotted name of an [Attribute] chain rooted at a [Name]. *)
Definition referenced_name (n : node) : option string :=
  match n with
  | Name id _ => Some id
  | Attribute _ _ _ => attribute_chain n EmptyString
  | _ => None
  end.

(** The expression [root.a1.a2...an], built from the root outwards. *)
Definition chain_of (root : node) (attrs : list (string * expr_context)) : node :=
  fold_left (fun value a => Attribute value (fst a) (snd a)) attrs root.

(** The text [.a1.a2...an]. *)
Definition dotted_suffix (attrs : list (string * expr_context)) : string :=
  fold_right (fun a rest => "." +:+ fst a +:+ rest) EmptyString attrs.

(** [c] occurs in [s]. *)
Fixpoint occurs (c : ascii) (s : string) : bool :=
  match s with
  | EmptyString => false
  | String x r => Ascii.eqb x c || occurs c r
  end.

(** [s] without its last character ([s[:-1]]). *)
Definition drop_last (s : string) : string :=
  String.substring 0 (String.length s - 1) s.

(** No import statement lies strictly below [n]. *)
Definition import_free_below (n : node) : Prop :=
  forall c m, In c (iter_child_nodes n) -> occurs_in c m -> is_import m = false.

(** A store whose path [pkg] is a directory. *)
Definition directory_world : world :=
  World {[ "pkg" := Directory ]} [] Posix.

(** [import os] without line terminator. *)
Definition unterminated_text : string := "import os".

(** [import os] / [import sys] / [print(sys.argv)]: two module-level import
    statements, the first unused. *)
Definition top_level_text : string :=
  "import os" +:+ nl +:+ "import sys" +:+ nl +:+ "print(sys.argv)" +:+ nl.

Definition top_level_tree : node :=
  Other [ Import [Alias "os" None] 1 0 9;
          Import [Alias "sys" None] 2 0 10;
          Other [ Other [ Name "print" Load;
                          Attribute (Name "sys" Load) "argv" Load ] ] ].

(** [import os.path] / [os.path.join(1)]: a dotted module name used
    through a longer chain. *)
Definition dotted_tree : node :=
  Other [ Import [Alias "os.path" None] 1 0 14;
          Other [ Other [ Attribute
                            (Attribute (Name "os" Load) "path" Load)
                            "join" Load;
                          Other [] ] ] ].

(** [from os import *] / [print(getcwd())]: a star import whose names are
    used. *)
Definition star_text : string :=
  "from os import *" +:+ nl +:+ "print(getcwd())" +:+ nl.

Definition star_tree : node :=
  Other [ ImportFrom (Some "os") [Alias "*" None] 0 1 0 16;
          Other [ Other [ Name "print" Load;
                          Other [ Name "getcwd" Load ] ] ] ].

(** [import os] / [x = 1] with CR LF terminators on disk. *)
Definition crlf : string := String carriage_return nl.

Definition crlf_text : string :=
  "import os" +:+ crlf +:+ "x = 1" +:+ crlf.




End Notions.

(** ** Facts about [ast.walk] *)

Module AstFacts.

Import Ast.

Lemma forest_size_app (l1 l2 : list node) :
  forest_size (l1 ++ l2) = forest_size l1 + forest_size l2.
Proof.
  induction l1 as [|c l1 IH]; simpl; [reflexivity|].
  rewrite IH. lia.
Qed.

Lemma forest_size_aliases (names : list alias) :
  forest_size (map AliasNode names) = length names.
Proof. induction names; simpl; congruence. Qed.

Lemma node_size_children (n : node) :
  node_size n = S (forest_size (iter_child_nodes n)).
Proof.
  destruct n; simpl; rewrite ?forest_size_aliases; try lia.
  all: f_equal; induction children as [|c cs IH]; simpl; congruence.
Qed.

Lemma node_size_pos (n : node) : 0 < node_size n.
Proof. rewrite node_size_children. lia. Qed.

Lemma forest_size_step (n : node) (rest : list node) :
  S (forest_size (rest ++ iter_child_nodes n)) = forest_size (n :: rest).
Proof. simpl. rewrite forest_size_app, node_size_children. lia. Qed.

Lemma forest_size_length (l : list node) : length l <= forest_size l.
Proof.
  induction l as [|c l IH]; simpl; [lia|].
  pose proof (node_size_pos c). lia.
Qed.

Lemma forest_size_flat_map (l : list node) :
  forest_size (flat_map iter_child_nodes l) + length l = forest_size l.
Proof.
  induction l as [|c l IH]; simpl; [reflexivity|].
  rewrite forest_size_app, node_size_children. lia.
Qed.

(** The queue is empty before the fuel runs out: any fuel of at least the
    size of the queue gives the same walk. *)
Lemma walk_queue_fuel (f1 f2 : nat) (todo : list node) :
  forest_size todo <= f1 -> forest_size todo <= f2 ->
  walk_queue f1 todo = walk_queue f2 todo.
Proof.
  revert f2 todo. induction f1 as [|f1 IH]; intros f2 todo H1 H2.
  - destruct todo as [|n rest]; [now destruct f2|].
    simpl in H1. pose proof (node_size_pos n). lia.
  - destruct todo as [|n rest]; [now destruct f2|].
    destruct f2 as [|f2].
    + simpl in H2. pose proof (node_size_pos n). lia.
    + simpl. f_equal. pose proof (forest_size_step n rest).
      apply IH; lia.
Qed.

Lemma walk_forest_nil : walk_forest [] = [].
Proof. reflexivity. Qed.

Lemma walk_forest_cons (n : node) (rest : list node) :
  walk_forest (n :: rest) = n :: walk_forest (rest ++ iter_child_nodes n).
Proof.
  unfold walk_forest. rewrite <- (forest_size_step n rest). reflexivity.
Qed.

(** A whole block at the head of the queue is yielded before anything its
    nodes add to the queue. *)
Lemma walk_forest_app (cur acc : list node) :
  walk_forest (cur ++ acc)
  = cur ++ walk_forest (acc ++ flat_map iter_child_nodes cur).
Proof.
  revert acc. induction cur as [|n cur IH]; intros acc; simpl.
  - now rewrite app_nil_r.
  - rewrite walk_forest_cons. f_equal.
    rewrite <- app_assoc, IH, <- app_assoc. reflexivity.
Qed.

(** The walk is the concatenation of the levels. *)
Lemma walk_forest_levels (fuel : nat) (level : list node) :
  forest_size level <= fuel ->
  concat (levels_from fuel level) = walk_forest level.
Proof.
  revert level. induction fuel as [|fuel IH]; intros level Hf.
  - destruct level as [|n rest]; [reflexivity|].
    simpl in Hf. pose proof (node_size_pos n). lia.
  - destruct level as [|n rest]; [reflexivity|].
    cbn [levels_from concat].
    rewrite IH.
    + rewrite <- (app_nil_r (n :: rest)) at 3.
      rewrite walk_forest_app. reflexivity.
    + pose proof (forest_size_flat_map (n :: rest)). simpl length in *. lia.
Qed.

Lemma walk_levels (tree : node) : walk tree = concat (levels tree).
Proof.
  unfold walk, levels. symmetry. apply walk_forest_levels. simpl. lia.
Qed.

(** The walk yields every node of the queue and, with a node, its
    children. *)
Lemma walk_forest_complete (k : nat) :
  forall todo, forest_size todo <= k ->
    (forall n, In n todo -> In n (walk_forest todo)) /\
    (forall m c, In m (walk_forest todo) -> In c (iter_child_nodes m) ->
                 In c (walk_forest todo)).
Proof.
  induction k as [|k IH]; intros todo Hk.
  - destruct todo as [|n rest]; [split; intros; contradiction|].
    simpl in Hk. pose proof (node_size_pos n). lia.
  - destruct todo as [|n rest]; [split; intros; contradiction|].
    pose proof (forest_size_step n rest) as Hs.
    destruct (IH (rest ++ iter_child_nodes n)) as [IH1 IH2]; [lia|].
    rewrite walk_forest_cons. split.
    + intros m [->|Hm]; [now left|].
      right. apply IH1, in_or_app. now left.
    + intros m c [->|Hm] Hc.
      * right. apply IH1, in_or_app. now right.
      * right. eapply IH2; eassumption.
Qed.

Lemma occurs_in_walk (tree n : node) : occurs_in tree n -> In n (walk tree).
Proof.
  destruct (walk_forest_complete (forest_size [tree]) [tree] (le_n _))
    as [H1 H2].
  induction 1 as [|n c _ IH Hc].
  - apply H1. now left.
  - eapply H2; eassumption.
Qed.

(** The walk yields nodes of the queued trees only. *)
Lemma walk_forest_sound (k : nat) :
  forall todo, forest_size todo <= k ->
    forall n, In n (walk_forest todo) ->
              exists root, In root todo /\ occurs_in root n.
Proof.
  induction k as [|k IH]; intros todo Hk n Hn.
  - destruct todo as [|r rest]; [contradiction|].
    simpl in Hk. pose proof (node_size_pos r). lia.
  - destruct todo as [|r rest]; [contradiction|].
    pose proof (forest_size_step r rest) as Hs.
    rewrite walk_forest_cons in Hn. destruct Hn as [<-|Hn].
    + exists r. split; [now left | constructor].
    + destruct (IH (rest ++ iter_child_nodes r)) with (n := n)
        as (root & Hroot & Hocc); [lia | assumption |].
      apply in_app_or in Hroot. destruct Hroot as [Hroot|Hroot].
      * exists root. split; [now right | assumption].
      * exists r. split; [now left|].
        clear - Hroot Hocc. induction Hocc as [|m c _ IHo Hc].
        -- econstructor; [constructor | assumption].
        -- econstructor; eassumption.
Qed.

Lemma walk_occurs_in (tree n : node) : In n (walk tree) -> occurs_in tree n.
Proof.
  intros Hn.
  destruct (walk_forest_sound _ [tree] (le_n _) n Hn) as (root & [<-|[]] & H).
  assumption.
Qed.

End AstFacts.

(** ** Facts about lines of text *)

Module TextFacts.

Import PyStr Spec.

Create HintDb lines.
#[local] Hint Constructors complete_line open_line lines_wf : lines.

Lemma eqb_newline (c : ascii) :
  (Ascii.eqb c newline = true /\ c = newline) \/
  (Ascii.eqb c newline = false /\ c <> newline).
Proof. destruct (Ascii.eqb_spec c newline); auto. Qed.

Lemma append_cons (c : ascii) (s t : string) :
  String.append (String c s) t = String c (String.append s t).
Proof. reflexivity. Qed.

Lemma append_empty_l (s : string) : String.append EmptyString s = s.
Proof. reflexivity. Qed.

Lemma append_empty_r (s : string) : String.append s EmptyString = s.
Proof.
  induction s as [|c s IH]; [reflexivity|].
  now rewrite append_cons, IH.
Qed.

Lemma writelines_cons (l : string) (ls : list string) :
  writelines (l :: ls) = String.append l (writelines ls).
Proof. reflexivity. Qed.

Lemma writelines_readlines (s : string) : writelines (readlines s) = s.
Proof.
  induction s as [|c r IH]; [reflexivity|].
  simpl. destruct (Ascii.eqb c newline).
  - now rewrite writelines_cons, append_cons, append_empty_l, IH.
  - destruct (readlines r) as [|l ls].
    + now rewrite <- IH.
    + rewrite writelines_cons in *. now rewrite append_cons, IH.
Qed.

Lemma readlines_wf (s : string) : lines_wf (readlines s).
Proof.
  induction s as [|c r IH]; simpl; [constructor|].
  destruct (eqb_newline c) as [[-> ->]|[-> Hc]].
  - apply wf_cons; [apply complete_nl | assumption].
  - destruct (readlines r) as [|l ls]; [auto with lines|].
    inversion IH; subst; auto with lines.
Qed.

Lemma readlines_complete (l s : string) :
  complete_line l -> readlines (String.append l s) = l :: readlines s.
Proof.
  induction 1 as [|c l Hc _ IH].
  - reflexivity.
  - rewrite append_cons. simpl.
    destruct (eqb_newline c) as [[_ ?]|[-> _]]; [contradiction|].
    now rewrite IH.
Qed.

Lemma readlines_open (l : string) : open_line l -> readlines l = [l].
Proof.
  induction 1 as [c Hc|c l Hc _ IH]; simpl;
    destruct (eqb_newline c) as [[_ ?]|[-> _]]; try contradiction.
  - reflexivity.
  - now rewrite IH.
Qed.

(** Writing well-formed lines and reading them back gives the same lines. *)
Lemma readlines_writelines (ls : list string) :
  lines_wf ls -> readlines (writelines ls) = ls.
Proof.
  induction 1 as [|l Hl|l ls Hl _ IH].
  - reflexivity.
  - rewrite writelines_cons. change (writelines []) with EmptyString.
    rewrite append_empty_r. now apply readlines_open.
  - now rewrite writelines_cons, readlines_complete, IH.
Qed.

(** Leaving lines out keeps the remaining ones well formed. *)
Lemma lines_wf_filter (P : Z * string -> Prop) `{!forall p, Decision (P p)}
    (ls : list string) (start : Z) :
  lines_wf ls -> lines_wf (map snd (filter P (enumerate ls start))).
Proof.
  intros Hwf. revert start.
  induction Hwf as [|l Hl|l ls Hl _ IH]; intros start; simpl.
  - constructor.
  - rewrite filter_cons. destruct (decide (P (start, l))); simpl;
      auto with lines.
  - rewrite filter_cons. destruct (decide (P (start, l))); simpl;
      auto with lines.
Qed.

End TextFacts.

(** ** Facts about detection *)

Module DetectionFacts.

Import PyStr Ast World Main Spec AstFacts.

Lemma add_names_mono (l : list node) (acc : gset string) (x : string) :
  x ∈ acc -> x ∈ foldl add_names acc l.
Proof.
  revert acc. induction l as [|n l IH]; intros acc Hx; simpl; [assumption|].
  apply IH. destruct n; simpl; try assumption; try set_solver.
  destruct (attribute_chain _ _); set_solver.
Qed.

Lemma add_names_name (l : list node) (acc : gset string) (x : string)
    (ctx : expr_context) :
  In (Name x ctx) l -> x ∈ foldl add_names acc l.
Proof.
  revert acc. induction l as [|n l IH]; intros acc Hin; [contradiction|].
  destruct Hin as [->|Hin]; simpl.
  - apply add_names_mono. set_solver.
  - now apply IH.
Qed.

(** Every identifier node of the tree puts its name in the set. *)
Lemma collect_names_name (tree : node) (x : string) (ctx : expr_context) :
  occurs_in tree (Name x ctx) -> x ∈ collect_names tree.
Proof. intros H. eapply add_names_name, occurs_in_walk, H. Qed.

(** The root of a chain is an identifier node of the tree. *)
Lemma chain_root_occurs (tree n : node) (x : string) :
  occurs_in tree n -> chain_root n = Some x ->
  exists ctx, occurs_in tree (Name x ctx).
Proof.
  induction n; intros Hocc Hroot; simpl in Hroot; try discriminate.
  - injection Hroot as ->. eauto.
  - apply IHn; [|assumption].
    eapply occurs_child; [exact Hocc | now left].
Qed.

Lemma flat_map_map {A B C} (f : B -> C) (g : A -> list B) (l : list A) :
  map f (flat_map g l) = flat_map (fun x => map f (g x)) l.
Proof.
  induction l as [|x l IH]; simpl; [reflexivity|].
  now rewrite map_app, IH.
Qed.

Lemma flat_map_concat {A B} (f : A -> list B) (ls : list (list A)) :
  flat_map f (concat ls) = concat (map (flat_map f) ls).
Proof.
  induction ls as [|l ls IH]; simpl; [reflexivity|].
  now rewrite flat_map_app, IH.
Qed.

Lemma node_records_bindings (content : string) (all_names : gset string)
    (n : node) :
  node_records content all_names n
  = map (record_of_binding content) (node_bindings all_names n).
Proof.
  destruct n; simpl; try reflexivity; unfold alias_records;
    rewrite flat_map_map; apply flat_map_ext; intros a;
    destruct (decide _); reflexivity.
Qed.

(** The records are the unused bindings, one record per binding. *)
Lemma unused_imports_of_bindings (content : string) (tree : node) :
  unused_imports_of content tree
  = map (record_of_binding content) (unused_bindings tree).
Proof.
  unfold unused_imports_of, unused_bindings.
  rewrite flat_map_map. apply flat_map_ext. intros n.
  apply node_records_bindings.
Qed.

Lemma in_node_bindings (all_names : gset string) (n stmt : node) (a : alias) :
  In (stmt, a) (node_bindings all_names n) ->
  stmt = n /\ is_import n = true /\ In a (stmt_names n) /\
  imported_name a ∉ all_names.
Proof.
  destruct n; simpl; try contradiction; intros H;
    apply in_flat_map in H; destruct H as (b & Hb & H);
    destruct (decide _); try contradiction;
    destruct H as [[= <- <-]|[]]; auto.
Qed.

Lemma node_bindings_in (all_names : gset string) (n : node) (a : alias) :
  is_import n = true -> In a (stmt_names n) ->
  imported_name a ∉ all_names -> In (n, a) (node_bindings all_names n).
Proof.
  destruct n; simpl; try discriminate; intros _ Ha Hx;
    apply in_flat_map; exists a; (split; [assumption|]);
    destruct (decide _); [contradiction | now left | contradiction | now left].
Qed.

(** A binding is listed exactly when its statement is in the tree and its
    effective local name is not in the set of collected names. *)
Lemma in_unused_bindings (tree stmt : node) (a : alias) :
  In (stmt, a) (unused_bindings tree) <->
  occurs_in tree stmt /\ is_import stmt = true /\ In a (stmt_names stmt) /\
  imported_name a ∉ collect_names tree.
Proof.
  unfold unused_bindings. rewrite in_flat_map. split.
  - intros (n & Hn & H). apply in_node_bindings in H.
    destruct H as (-> & ? & ? & ?). auto using walk_occurs_in.
  - intros (Hocc & Himp & Ha & Hx). exists stmt.
    split; [now apply occurs_in_walk | now apply node_bindings_in].
Qed.

Lemma node_records_not_import (content : string) (all_names : gset string)
    (n : node) :
  is_import n = false -> node_records content all_names n = [].
Proof. destruct n; simpl; intros; (reflexivity || discriminate). Qed.

Lemma alias_records_lines (content : string) (all_names : gset string)
    (lineno : Z) (names : list alias) :
  Forall (eq lineno) (map fst (alias_records content all_names lineno names)).
Proof.
  unfold alias_records. induction names as [|a names IH]; simpl.
  - constructor.
  - destruct (decide _); simpl; [assumption | now constructor].
Qed.

Lemma node_records_lines (content : string) (all_names : gset string)
    (n : node) :
  Forall (eq (stmt_lineno n)) (map fst (node_records content all_names n)).
Proof.
  destruct n; simpl; try constructor; apply alias_records_lines.
Qed.

(** Without import statements there is no record. *)
Lemma unused_imports_of_import_free (content : string) (tree : node) :
  (forall n, occurs_in tree n -> is_import n = false) ->
  unused_imports_of content tree = [].
Proof.
  intros Hfree. unfold unused_imports_of.
  assert (H : forall n, In n (walk tree) -> is_import n = false)
    by auto using walk_occurs_in.
  induction (walk tree) as [|n l IH]; simpl; [reflexivity|].
  rewrite node_records_not_import by (apply H; now left).
  apply IH. intros m Hm. apply H. now right.
Qed.

(** The line numbers of the records of a level are line numbers of its
    import statements. *)
Lemma level_records_lines (content : string) (all_names : gset string)
    (level : list node) (x : Z) :
  x ∈ map fst (flat_map (node_records content all_names) level) ->
  x ∈ map stmt_lineno (filter (fun n => is_import n = true) level).
Proof.
  induction level as [|n level IH]; simpl; [auto|].
  rewrite map_app, elem_of_app. intros [Hx|Hx].
  - destruct (is_import n) eqn:Himp.
    + rewrite filter_cons_True by assumption. simpl.
      pose proof (node_records_lines content all_names n) as Hall.
      rewrite Forall_forall in Hall.
      rewrite <- (Hall _ Hx). left.
    + rewrite node_records_not_import in Hx by assumption. inversion Hx.
  - rewrite filter_cons. destruct (decide _); simpl; [right|]; auto.
Qed.

Lemma constant_sorted (x : Z) (l : list Z) :
  Forall (eq x) l -> StronglySorted Z.le l.
Proof.
  intros Hall. induction l as [|y l IH]; constructor.
  - apply IH. now inversion Hall.
  - inversion Hall as [|? ? <- Hall']; subst.
    eapply Forall_impl; [exact Hall'|]. intros z <-. reflexivity.
Qed.

(** Within one depth the records follow the statements from left to
    right. *)
Lemma level_records_sorted (content : string) (all_names : gset string)
    (level : list node) :
  level_in_source_order level ->
  top_to_bottom (flat_map (node_records content all_names) level).
Proof.
  unfold level_in_source_order, top_to_bottom. intros Hs.
  apply Sorted_StronglySorted in Hs; [|exact Z.le_trans].
  apply StronglySorted_Sorted.
  induction level as [|n level IH]; simpl; [constructor|].
  rewrite map_app. destruct (is_import n) eqn:Himp.
  - rewrite filter_cons_True in Hs by assumption. simpl in Hs.
    apply StronglySorted_inv in Hs. destruct Hs as [Hs Hle].
    apply StronglySorted_app_2.
    + intros x1 x2 H1 H2. apply level_records_lines in H2.
      pose proof (node_records_lines content all_names n) as Hall.
      rewrite Forall_forall in Hall, Hle.
      rewrite <- (Hall _ H1). now apply Hle.
    + exact (constant_sorted _ _ (node_records_lines content all_names n)).
    + now apply IH.
  - rewrite filter_cons_False in Hs by congruence.
    rewrite node_records_not_import by assumption. now apply IH.
Qed.

End DetectionFacts.

(** ** Facts about the run of the two functions *)

Module RunFacts.

Import PyStr Ast World Main Spec AstFacts TextFacts DetectionFacts.

Lemma lines_to_remove_acc (unused : list record) (acc : gset Z) (x : Z) :
  x ∈ foldl (fun s r => {[ fst r ]} ∪ s) acc unused <->
  x ∈ acc \/ x ∈ map fst unused.
Proof.
  revert acc. induction unused as [|r unused IH]; intros acc; simpl.
  - rewrite elem_of_nil. tauto.
  - rewrite IH, elem_of_cons, elem_of_union, elem_of_singleton. tauto.
Qed.

Lemma elem_of_lines_to_remove (unused : list record) (x : Z) :
  x ∈ lines_to_remove unused <-> x ∈ map fst unused.
Proof.
  unfold lines_to_remove. rewrite lines_to_remove_acc, elem_of_empty. tauto.
Qed.

(** The list comprehension of lines 119-121 keeps the lines whose number is
    in no record. *)
Lemma enumerate_filter_positions (numbers : list Z) (first : Z)
    (pre suf : list string) :
  map snd (filter (fun p => fst p ∉ numbers)
                  (enumerate suf (first + Z.of_nat (length pre))))
  = flat_map (fun i => if decide ((first + Z.of_nat i)%Z ∈ numbers) then []
                       else match (pre ++ suf) !! i with
                            | Some line => [line]
                            | None => []
                            end)
             (seq (length pre) (length suf)).
Proof.
  revert pre. induction suf as [|l suf IH]; intros pre; [reflexivity|].
  cbn [enumerate length seq flat_map].
  rewrite list_lookup_middle by reflexivity.
  specialize (IH (pre ++ [l])).
  rewrite length_app, <- app_assoc in IH. cbn [length app] in IH.
  replace (first + Z.of_nat (length pre + 1))%Z
    with (first + Z.of_nat (length pre) + 1)%Z in IH by lia.
  replace (length pre + 1) with (S (length pre)) in IH by lia.
  rewrite <- IH, filter_cons. cbn [fst].
  destruct (decide ((first + Z.of_nat (length pre))%Z ∈ numbers)) as [Hin|Hout].
  - rewrite decide_False by auto. reflexivity.
  - rewrite decide_True by assumption. reflexivity.
Qed.

Lemma lines_except_enumerate (lines : list string) (numbers : list Z) :
  lines_except lines numbers
  = map snd (filter (fun p => fst p ∉ numbers) (enumerate lines 1)).
Proof. symmetry. exact (enumerate_filter_positions numbers 1 [] lines). Qed.

Lemma new_lines_except (lines : list string) (unused : list record) :
  new_lines lines unused = lines_except lines (map fst unused).
Proof.
  rewrite lines_except_enumerate. unfold new_lines.
  f_equal. apply list_filter_iff.
  intros p. now rewrite elem_of_lines_to_remove.
Qed.

(** The kept lines of well-formed lines are well formed. *)
Lemma lines_except_wf (lines : list string) (numbers : list Z) :
  lines_wf lines -> lines_wf (lines_except lines numbers).
Proof.
  intros Hwf. rewrite lines_except_enumerate. now apply lines_wf_filter.
Qed.

Lemma writes_app (t1 t2 : list event) : writes (t1 ++ t2) = writes t1 ++ writes t2.
Proof. apply flat_map_app. Qed.

Lemma logging_files l m w : files (logging l m w) = files w.
Proof. reflexivity. Qed.

Lemma logging_writes l m w : writes (trace (logging l m w)) = writes (trace w).
Proof. simpl. rewrite writes_app. simpl. apply app_nil_r. Qed.

Lemma logging_loop {A} (lv : level) (m : A -> message) (l : list A)
    (w : world) :
  let w' := foldl (fun w r => logging lv (m r) w) w l in
  files w' = files w /\ writes (trace w') = writes (trace w).
Proof.
  revert w. induction l as [|r l IH]; intros w; simpl; [easy|].
  destruct (IH (logging lv (m r) w)) as [-> ->].
  now rewrite logging_writes.
Qed.

Lemma logging_os l m w : os (logging l m w) = os w.
Proof. reflexivity. Qed.

Lemma open_read_regular (filepath disk : string) (w : world) :
  files w !! filepath = Some (Regular disk) ->
  open_read filepath w = inr (universal_newlines disk).
Proof. unfold open_read. now intros ->. Qed.

Lemma open_read_inv (filepath content : string) (w : world) :
  open_read filepath w = inr content ->
  exists disk,
    files w !! filepath = Some (Regular disk) /\
    content = universal_newlines disk.
Proof.
  unfold open_read. destruct (files w !! filepath) as [[c|]|]; try discriminate.
  intros [= <-]. eauto.
Qed.

(** What is read depends on the files only. *)
Lemma open_read_files (filepath : string) (w1 w2 : world) :
  files w1 = files w2 -> open_read filepath w1 = open_read filepath w2.
Proof. unfold open_read. now intros ->. Qed.

(** A dry run changes no file and writes nothing. *)
Lemma remove_dry_run (filepath : string) (unused : list record) (w : world) :
  let w' := remove_unused_imports filepath unused true w in
  files w' = files w /\ writes (trace w') = writes (trace w).
Proof.
  unfold remove_unused_imports. destruct unused as [|r unused].
  - split; [reflexivity | apply logging_writes].
  - destruct (open_read filepath w) as [e|text].
    + split; [reflexivity | apply logging_writes].
    + pose proof (logging_loop INFO
                    (fun r : Z * string => MsgDryRunLine (fst r) (strip (snd r)))
                    (r :: unused) (logging INFO MsgDryRunHeader w)) as Hloop.
      cbv beta zeta in Hloop. destruct Hloop as [Hf Hw].
      cbv beta iota zeta.
      split; [exact Hf | now rewrite Hw, logging_writes].
Qed.

(** Without records nothing is read or written. *)
Lemma remove_nothing (filepath : string) (dry_run : bool) (w : world) :
  remove_unused_imports filepath [] dry_run w
  = logging INFO MsgNoUnusedImports w.
Proof. reflexivity. Qed.

(** With records and without [dry_run] the file is replaced by the kept
    lines, written through text mode. *)
Lemma remove_rewrites (filepath content : string) (unused : list record)
    (w : world) :
  open_read filepath w = inr content -> unused <> [] ->
  files (remove_unused_imports filepath unused false w)
  = <[filepath :=
        Regular (to_disk (os w)
                   (writelines (new_lines (readlines content) unused)))]>
      (files w).
Proof.
  intros Hread Hne. unfold remove_unused_imports.
  destruct unused as [|r unused]; [contradiction|].
  rewrite Hread. unfold open_write.
  destruct (open_read_inv _ _ _ Hread) as (disk & Hfile & _). rewrite Hfile.
  cbv beta iota zeta.
  match goal with
  | |- files (foldl _ ?w0 ?l) = _ =>
      pose proof (logging_loop INFO
                    (fun r : Z * string => MsgRemovedLine (fst r) (strip (snd r)))
                    l w0) as Hloop
  end.
  cbv beta zeta in Hloop. destruct Hloop as [Hf _].
  rewrite Hf. reflexivity.
Qed.

Section Detection.

Variable ast_parse : string -> string + node.

(** When [find_unused_imports] returns a tree, the file was read and parsed
    and the list is the one computed from that text and tree. *)
Lemma find_returns_tree (filepath : string) (aggressive : bool) (w w' : world)
    (unused : list record) (tree : node) :
  find_unused_imports ast_parse filepath aggressive w
  = ((unused, Some tree), w') ->
  exists content,
    open_read filepath w = inr content /\
    ast_parse content = inr tree /\
    unused = unused_imports_of content tree /\ w' = w.
Proof.
  unfold find_unused_imports.
  destruct (open_read filepath w) as [[]|content] eqn:Hread; try discriminate.
  destruct (ast_parse content) as [e|t] eqn:Hparse; try discriminate.
  intros [= <- <- <-]. exists content. auto.
Qed.

Lemma find_parsed (filepath : string) (aggressive : bool) (w : world)
    (content : string) (tree : node) :
  open_read filepath w = inr content ->
  ast_parse content = inr tree ->
  find_unused_imports ast_parse filepath aggressive w
  = ((unused_imports_of content tree, Some tree), w).
Proof.
  intros Hread Hparse. unfold find_unused_imports.
  now rewrite Hread, Hparse.
Qed.

(** The list returned depends on the files only, not on the trace. *)
Lemma find_files_only (filepath : string) (aggressive : bool) (w1 w2 : world) :
  files w1 = files w2 ->
  fst (find_unused_imports ast_parse filepath aggressive w1)
  = fst (find_unused_imports ast_parse filepath aggressive w2).
Proof.
  intros Hf. unfold find_unused_imports.
  rewrite (open_read_files filepath w1 w2 Hf).
  destruct (open_read filepath w2) as [[]|content]; try reflexivity.
  destruct (ast_parse content); reflexivity.
Qed.

(** Detection changes no file and writes nothing. *)
Lemma find_keeps_files (filepath : string) (aggressive : bool) (w : world) :
  let w' := snd (find_unused_imports ast_parse filepath aggressive w) in
  files w' = files w /\ writes (trace w') = writes (trace w).
Proof.
  cbv zeta. unfold find_unused_imports.
  destruct (open_read filepath w) as [e|text].
  - destruct e; cbn [snd]; rewrite logging_writes; auto.
  - destruct (ast_parse text); cbn [snd]; rewrite ?logging_writes; auto.
Qed.

Lemma find_keeps_os (filepath : string) (aggressive : bool) (w : world) :
  os (snd (find_unused_imports ast_parse filepath aggressive w)) = os w.
Proof.
  unfold find_unused_imports.
  destruct (open_read filepath w) as [[]|text]; try reflexivity.
  destruct (ast_parse text); reflexivity.
Qed.

End Detection.

End RunFacts.

(** ** Facts about line terminators and kept lines *)

Module NewlineFacts.

Import PyStr World Spec Notions TextFacts RunFacts.

Lemma occurs_app (c : ascii) (a b : string) :
  occurs c (String.append a b) = occurs c a || occurs c b.
Proof.
  induction a as [|x a IH]; [reflexivity|].
  rewrite append_cons. simpl. now rewrite IH, orb_assoc.
Qed.

Lemma append_assoc' (a b c : string) :
  String.append (String.append a b) c = String.append a (String.append b c).
Proof.
  induction a as [|x a IH]; [reflexivity|].
  now rewrite !append_cons, IH.
Qed.

(** The text read holds no carriage return. *)
Lemma universal_newlines_no_cr (s : string) :
  occurs carriage_return (universal_newlines s) = false.
Proof.
  enough (H : occurs carriage_return (universal_newlines s) = false /\
              forall c, occurs carriage_return
                          (universal_newlines (String c s)) = false)
    by apply H.
  induction s as [|d s [IH1 IH2]].
  - split; [reflexivity|]. intros c. simpl.
    destruct (Ascii.eqb c carriage_return) eqn:Hc; simpl; [reflexivity|].
    now rewrite Hc.
  - split; [apply IH2|]. intros c.
    change (universal_newlines (String c (String d s)))
      with (if Ascii.eqb c carriage_return
            then if Ascii.eqb d newline
                 then String newline (universal_newlines s)
                 else String newline (universal_newlines (String d s))
            else String c (universal_newlines (String d s))).
    destruct (Ascii.eqb c carriage_return) eqn:Hc.
    + destruct (Ascii.eqb d newline);
        cbn [occurs]; change (Ascii.eqb newline carriage_return) with false;
        cbn [orb]; [exact IH1 | apply IH2].
    + cbn [occurs]. rewrite Hc. cbn [orb]. apply IH2.
Qed.

Lemma translate_newlines_app (linesep a b : string) :
  translate_newlines linesep (String.append a b)
  = String.append (translate_newlines linesep a)
                  (translate_newlines linesep b).
Proof.
  induction a as [|x a IH]; [reflexivity|].
  rewrite append_cons. simpl. rewrite IH.
  destruct (Ascii.eqb x newline);
    [now rewrite append_assoc' | now rewrite append_cons].
Qed.

Lemma to_disk_writelines (p : platform) (ls : list string) :
  to_disk p (writelines ls) = writelines (map (to_disk p) ls).
Proof.
  induction ls as [|l ls IH]; [reflexivity|].
  cbn [map]. rewrite !writelines_cons. unfold to_disk in *.
  now rewrite translate_newlines_app, IH.
Qed.

(** On a POSIX platform text mode writes the text as it is. *)
Lemma to_disk_posix (t : string) : to_disk Posix t = t.
Proof.
  change (to_disk Posix t) with (translate_newlines nl t).
  induction t as [|c t IH]; [reflexivity|].
  cbn [translate_newlines]. rewrite IH.
  destruct (eqb_newline c) as [[-> ->]|[-> _]]; reflexivity.
Qed.

Lemma universal_newlines_linesep (p : platform) (s : string) :
  universal_newlines (String.append (os_linesep p) s)
  = String newline (universal_newlines s).
Proof. destruct p; reflexivity. Qed.

Lemma disk_lines_linesep (p : platform) (s : string) :
  disk_lines (String.append (os_linesep p) s) = os_linesep p :: disk_lines s.
Proof. destruct p; reflexivity. Qed.

(** Reading back what text mode wrote gives the text that was written. *)
Lemma universal_newlines_to_disk (p : platform) (t : string) :
  occurs carriage_return t = false ->
  universal_newlines (to_disk p t) = t.
Proof.
  unfold to_disk. induction t as [|c t IH]; intros Ht; [reflexivity|].
  cbn [occurs] in Ht. apply orb_false_iff in Ht. destruct Ht as [Hc Ht].
  cbn [translate_newlines].
  destruct (eqb_newline c) as [[-> ->]|[-> Hn]].
  - now rewrite universal_newlines_linesep, IH.
  - cbn [universal_newlines]. rewrite Hc. now rewrite IH.
Qed.

Lemma occurs_writelines (c : ascii) (ls : list string) :
  Forall (fun l => occurs c l = false) ls ->
  occurs c (writelines ls) = false.
Proof.
  induction 1 as [|l ls Hl _ IH]; [reflexivity|].
  now rewrite writelines_cons, occurs_app, Hl, IH.
Qed.

Lemma occurs_readlines (c : ascii) (s : string) :
  occurs c s = false -> Forall (fun l => occurs c l = false) (readlines s).
Proof.
  induction s as [|x s IH]; intros Hs; [constructor|].
  cbn [occurs] in Hs. apply orb_false_iff in Hs. destruct Hs as [Hx Hs].
  specialize (IH Hs). simpl.
  destruct (Ascii.eqb x newline).
  - constructor; [|assumption]. cbn [occurs]. now rewrite Hx.
  - destruct (readlines s) as [|l ls].
    + constructor; [|constructor]. cbn [occurs]. now rewrite Hx.
    + inversion IH; subst. constructor; [|assumption].
      cbn [occurs]. now rewrite Hx.
Qed.

(** A kept line is a line of the file. *)
Lemma in_lines_except_from (first : Z) (lines : list string)
    (numbers : list Z) (l : string) :
  In l (lines_except_from first lines numbers) -> In l lines.
Proof.
  unfold lines_except_from. rewrite in_flat_map.
  intros (i & _ & Hl). destruct (decide _); [contradiction|].
  destruct (lines !! i) as [line|] eqn:Hi; [|contradiction].
  destruct Hl as [<-|[]]. apply list_elem_of_In.
  eapply list_elem_of_lookup_2, Hi.
Qed.

Lemma lines_except_no_cr (t : string) (numbers : list Z) :
  occurs carriage_return t = false ->
  occurs carriage_return (writelines (lines_except (readlines t) numbers))
  = false.
Proof.
  intros Ht. apply occurs_writelines. apply Forall_forall. intros l Hl.
  apply list_elem_of_In, in_lines_except_from in Hl.
  pose proof (occurs_readlines _ _ Ht) as Hall.
  rewrite Forall_forall in Hall. apply Hall. now apply list_elem_of_In.
Qed.

(** The lines read back from the rewritten file are the kept lines. *)
Lemma read_back_kept_lines (p : platform) (t : string) (numbers : list Z) :
  occurs carriage_return t = false ->
  readlines (universal_newlines
               (to_disk p (writelines (lines_except (readlines t) numbers))))
  = lines_except (readlines t) numbers.
Proof.
  intros Ht. rewrite universal_newlines_to_disk
    by now apply lines_except_no_cr.
  apply readlines_writelines, lines_except_wf, readlines_wf.
Qed.

Lemma lines_except_from_map (f : string -> string) (first : Z)
    (lines : list string) (numbers : list Z) :
  lines_except_from first (map f lines) numbers
  = map f (lines_except_from first lines numbers).
Proof.
  unfold lines_except_from. rewrite length_map, flat_map_concat_map.
  rewrite flat_map_concat_map, concat_map, map_map. f_equal.
  apply map_ext. intros i. destruct (decide _); [reflexivity|].
  rewrite list_lookup_fmap. now destruct (lines !! i).
Qed.

(** The lines on disk of what text mode writes are the lines of the text,
    each written through text mode. *)
Lemma disk_lines_to_disk (p : platform) (t : string) :
  occurs carriage_return t = false ->
  disk_lines (to_disk p t) = map (to_disk p) (readlines t).
Proof.
  unfold to_disk. induction t as [|c t IH]; intros Ht; [reflexivity|].
  cbn [occurs] in Ht. apply orb_false_iff in Ht. destruct Ht as [Hc Ht].
  specialize (IH Ht). cbn [translate_newlines readlines].
  destruct (eqb_newline c) as [[-> ->]|[-> Hn]].
  - rewrite disk_lines_linesep, IH. cbn [map translate_newlines].
    change (Ascii.eqb newline newline) with true. cbv iota.
    now rewrite append_empty_r.
  - cbn [disk_lines].
    destruct (eqb_newline c) as [[_ ?]|[-> _]]; [contradiction|].
    rewrite Hc, IH.
    destruct (readlines t) as [|l ls]; cbn [map translate_newlines].
    + destruct (eqb_newline c) as [[_ ?]|[-> _]]; [contradiction|].
      reflexivity.
    + destruct (eqb_newline c) as [[_ ?]|[-> _]]; [contradiction|].
      reflexivity.
Qed.

Lemma flat_map_ext_seq {B} (f g : nat -> list B) (a n : nat) :
  (forall i, a <= i < a + n -> f i = g i) ->
  flat_map f (seq a n) = flat_map g (seq a n).
Proof.
  revert a. induction n as [|n IH]; intros a H; [reflexivity|].
  cbn [seq flat_map]. rewrite (H a) by lia. f_equal.
  apply IH. intros i Hi. apply H. lia.
Qed.

Lemma flat_map_seq_shift {B} (f : nat -> list B) (a n : nat) :
  flat_map f (seq a n) = flat_map (fun i => f (a + i)) (seq 0 n).
Proof.
  revert a f. induction n as [|n IH]; intros a f; [reflexivity|].
  cbn [seq flat_map]. rewrite Nat.add_0_r. f_equal.
  rewrite (IH (S a) f), (IH 1 (fun i => f (a + i))).
  apply flat_map_ext. intros i. f_equal. lia.
Qed.

(** Leaving out the line at a known position. *)
Lemma lines_except_from_app (first : Z) (l1 l2 : list string)
    (numbers : list Z) :
  lines_except_from first (l1 ++ l2) numbers
  = lines_except_from first l1 numbers
    ++ lines_except_from (first + Z.of_nat (length l1)) l2 numbers.
Proof.
  unfold lines_except_from.
  rewrite length_app, seq_app, flat_map_app. f_equal.
  - apply flat_map_ext_seq. intros i Hi.
    destruct (decide _); [reflexivity|].
    now rewrite lookup_app_l by lia.
  - cbn [Nat.add]. rewrite flat_map_seq_shift.
    apply flat_map_ext. intros i.
    replace (first + Z.of_nat (length l1 + i))%Z
      with (first + Z.of_nat (length l1) + Z.of_nat i)%Z by lia.
    destruct (decide _); [reflexivity|].
    rewrite lookup_app_r by lia.
    now replace (length l1 + i - length l1) with i by lia.
Qed.

Lemma lines_except_from_dropped (first : Z) (l : string) (ls : list string)
    (numbers : list Z) :
  In first numbers ->
  lines_except_from first (l :: ls) numbers
  = lines_except_from (first + 1) ls numbers.
Proof.
  intros Hin.
  change (l :: ls) with ([l] ++ ls). rewrite lines_except_from_app.
  unfold lines_except_from at 1. cbn [length seq flat_map].
  rewrite Z.add_0_r, decide_True by now apply list_elem_of_In.
  reflexivity.
Qed.

End NewlineFacts.

(** ** Facts about [main] *)

Module MainFacts.

Import PyStr Ast World Main Spec Notions.
Import AstFacts TextFacts DetectionFacts RunFacts NewlineFacts.

(** A tree has no import statement when its walk yields none. *)
Lemma import_free_by_walk (tree : node) :
  forallb (fun n => negb (is_import n)) (walk tree) = true ->
  forall n, occurs_in tree n -> is_import n = false.
Proof.
  intros Hall n Hn. apply occurs_in_walk in Hn.
  rewrite forallb_forall in Hall. specialize (Hall n Hn).
  now destruct (is_import n).
Qed.

Section Driver.

Variable ast_parse : string -> string + node.

(** On an existing path [main] runs detection and then removal, from a
    world that differs from the initial one by a warning at most, and ends
    with status 0. *)
Lemma main_existing (args : arguments) (w : world) :
  is_Some (files w !! arg_filepath args) ->
  exists w1,
    files w1 = files w /\ writes (trace w1) = writes (trace w) /\
    main ast_parse args w
    = (0%Z,
       remove_unused_imports (arg_filepath args)
         (fst (fst (find_unused_imports ast_parse (arg_filepath args)
                      (arg_aggressive args) w1)))
         (arg_dry_run args)
         (snd (find_unused_imports ast_parse (arg_filepath args)
                 (arg_aggressive args) w1))).
Proof.
  intros Hex. unfold main, exists_path.
  rewrite bool_decide_eq_true_2 by assumption. cbn [negb].
  set (w1 := if endswith _ _ then w else _).
  exists w1. split; [|split].
  - subst w1. now destruct (endswith _ _).
  - subst w1. destruct (endswith _ _); [reflexivity | apply logging_writes].
  - now destruct (find_unused_imports _ _ _ w1) as [[u t] w2].
Qed.

(** On a missing path [main] only logs. *)
Lemma main_missing (args : arguments) (w : world) :
  files w !! arg_filepath args = None ->
  main ast_parse args w
  = (1%Z, logging ERROR (MsgDoesNotExist (arg_filepath args)) w).
Proof.
  intros Hnone. unfold main, exists_path.
  rewrite bool_decide_eq_false_2; [reflexivity|].
  rewrite Hnone. intros [x Hx]. discriminate.
Qed.

(** When detection finds nothing, [main] changes no file and writes
    nothing. *)
Lemma main_nothing_found (args : arguments) (w : world) :
  fst (fst (find_unused_imports ast_parse (arg_filepath args)
              (arg_aggressive args) w)) = [] ->
  files (snd (main ast_parse args w)) = files w /\
  writes (trace (snd (main ast_parse args w))) = writes (trace w).
Proof.
  intros Hnone.
  destruct (files w !! arg_filepath args) as [e|] eqn:Hfile.
  - destruct (main_existing args w) as (w1 & Hf1 & Hw1 & ->); [eauto|].
    cbn [snd].
    assert (Hfst : fst (find_unused_imports ast_parse (arg_filepath args)
                          (arg_aggressive args) w1)
                   = fst (find_unused_imports ast_parse (arg_filepath args)
                            (arg_aggressive args) w))
      by now apply find_files_only.
    rewrite Hfst, Hnone, remove_nothing.
    destruct (find_keeps_files ast_parse (arg_filepath args)
                (arg_aggressive args) w1) as [Hf2 Hw2].
    cbv zeta in Hf2, Hw2.
    rewrite logging_files, logging_writes, Hf2, Hw2. auto.
  - rewrite (main_missing args w Hfile). cbn [snd].
    now rewrite logging_writes.
Qed.

(** The text read from a file holds no carriage return. *)
Lemma open_read_no_cr (filepath content : string) (w : world) :
  open_read filepath w = inr content ->
  occurs carriage_return content = false.
Proof.
  intros Hread. destruct (open_read_inv _ _ _ Hread) as (disk & _ & ->).
  apply universal_newlines_no_cr.
Qed.

(** A run without [dry_run] on a parsed file with at least one record
    replaces the file by the lines that no record names: these are the
    lines read from it afterwards. *)
Lemma removal_lines_of_main (args : arguments) (w : world) (content : string)
    (tree : node) :
  open_read (arg_filepath args) w = inr content ->
  ast_parse content = inr tree ->
  arg_dry_run args = false ->
  unused_imports_of content tree <> [] ->
  exists text,
    open_read (arg_filepath args) (snd (main ast_parse args w)) = inr text
    /\ readlines text
       = lines_except (readlines content)
           (map fst (unused_imports_of content tree)).
Proof.
  intros Hread Hparse Hdry Hne.
  destruct (open_read_inv _ _ _ Hread) as (disk & Hfile & _).
  destruct (main_existing args w) as (w1 & Hf1 & _ & ->); [eauto|].
  rewrite <- (open_read_files _ w1 w Hf1) in Hread.
  rewrite (find_parsed _ _ _ _ _ _ Hread Hparse), Hdry. cbn [fst snd].
  eexists. split.
  - unfold open_read at 1.
    rewrite (remove_rewrites _ _ _ _ Hread Hne), lookup_insert_eq.
    reflexivity.
  - rewrite new_lines_except. apply read_back_kept_lines.
    exact (open_read_no_cr _ _ _ Hread).
Qed.

End Driver.

End MainFacts.

(** ** The properties of the specification *)

Module Claims.

Import PyStr Ast World Main Spec Samples Notions.
Import AstFacts TextFacts DetectionFacts RunFacts NewlineFacts MainFacts.

(** Membership of a node in a sample tree, decided on its walk. *)
Ltac in_sample_tree :=
  apply walk_occurs_in; vm_compute;
  repeat first [left; reflexivity | right].

(** C1, at the file [import os] / [import sys]: the record of the second
    statement carries line number 2 and the text [import os], although line
    2 of the file is [import sys].  Line 90 uses the line number as a
    character position, so the text found is that of the line holding
    character [lineno - 1]. *)
Theorem second_import_gets_first_line :
  find_unused_imports parse_samples "m.py" false
    (one_file "m.py" two_imports_text)
  = (([(1%Z, "import os"); (2%Z, "import os")], Some two_imports_tree),
     one_file "m.py" two_imports_text)
  /\ readlines two_imports_text = ["import os" +:+ nl; "import sys" +:+ nl].
Proof. split; vm_compute; reflexivity. Qed.

(** C2 fails as stated: for [def f():] / [    import a] / [import b] the
    record of line 3 comes before the record of line 2. *)
Lemma nested_import_listed_last :
  map fst (fst (fst (find_unused_imports parse_samples "m.py" false
                       (one_file "m.py" nested_text))))
  = [3%Z; 2%Z]
  /\ ~ top_to_bottom (fst (fst (find_unused_imports parse_samples "m.py" false
                                  (one_file "m.py" nested_text)))).
Proof.
  split; [vm_compute; reflexivity|].
  unfold top_to_bottom.
  replace (map fst _) with [3%Z; 2%Z] by (vm_compute; reflexivity).
  intros Hs. apply Sorted_inv in Hs. destruct Hs as [_ Hd].
  apply HdRel_inv in Hd. lia.
Qed.

(** C2, amended: the list returned by [find_unused_imports] follows the
    breadth-first order of [ast.walk].  It is the concatenation, by
    increasing nesting depth, of the records of the statements of each
    depth; when the import statements of every depth carry non-decreasing
    line numbers from left to right, the records of each depth run top to
    bottom.  [content] is the text read from the file. *)
Theorem records_in_breadth_first_order
    (ast_parse : string -> string + node) (filepath : string)
    (aggressive : bool) (w w' : world) (content : string)
    (unused : list record) (tree : node) :
  open_read filepath w = inr content ->
  find_unused_imports ast_parse filepath aggressive w
  = ((unused, Some tree), w') ->
  unused = concat (map (flat_map (node_records content (collect_names tree)))
                       (levels tree))
  /\ (Forall level_in_source_order (levels tree) ->
      Forall (fun level =>
                top_to_bottom
                  (flat_map (node_records content (collect_names tree)) level))
             (levels tree)).
Proof.
  intros Hread Hfind.
  apply find_returns_tree in Hfind.
  destruct Hfind as (content' & Hread' & _ & -> & _).
  assert (content' = content) as -> by congruence.
  split.
  - unfold unused_imports_of. now rewrite walk_levels, flat_map_concat.
  - intros Hlevels. eapply Forall_impl; [exact Hlevels|].
    intros level. apply level_records_sorted.
Qed.

Lemma records_in_breadth_first_order_witness :
  fst (fst (find_unused_imports parse_samples "m.py" false
              (one_file "m.py" nested_text)))
  = concat (map (flat_map (node_records nested_text
                             (collect_names nested_tree)))
                (levels nested_tree))
  /\ Forall (fun level =>
               top_to_bottom
                 (flat_map (node_records nested_text
                              (collect_names nested_tree)) level))
            (levels nested_tree).
Proof.
  destruct (records_in_breadth_first_order parse_samples "m.py" false
              (one_file "m.py" nested_text) (one_file "m.py" nested_text)
              nested_text
              (fst (fst (find_unused_imports parse_samples "m.py" false
                           (one_file "m.py" nested_text))))
              nested_tree) as [Hlist Hsorted].
  - vm_compute; reflexivity.
  - vm_compute; reflexivity.
  - split; [exact Hlist|]. apply Hsorted.
    unfold level_in_source_order. vm_compute. repeat constructor.
Defined.

(** C3: a binding whose effective local name is the name of a bare
    identifier node of the tree, or of the root identifier of an attribute
    chain of the tree, is not among the bindings whose records
    [find_unused_imports] returns.  [content] is the text read from the
    file. *)
Theorem referenced_binding_not_reported
    (ast_parse : string -> string + node) (filepath : string)
    (aggressive : bool) (w : world) (content : string) (tree : node)
    (n stmt : node) (a : alias) :
  open_read filepath w = inr content ->
  ast_parse content = inr tree ->
  occurs_in tree n ->
  chain_root n = Some (imported_name a) ->
  fst (find_unused_imports ast_parse filepath aggressive w)
  = (map (record_of_binding content) (unused_bindings tree), Some tree)
  /\ ~ In (stmt, a) (unused_bindings tree).
Proof.
  intros Hfile Hparse Hocc Hroot. split.
  - rewrite (find_parsed _ _ _ _ _ _ Hfile Hparse). simpl.
    now rewrite unused_imports_of_bindings.
  - rewrite in_unused_bindings. intros (_ & _ & _ & Hnot).
    destruct (chain_root_occurs _ _ _ Hocc Hroot) as [ctx Hname].
    apply Hnot. eapply collect_names_name, Hname.
Qed.

Lemma referenced_binding_not_reported_witness :
  fst (find_unused_imports parse_samples "m.py" false
         (one_file "m.py" alias_text))
  = (map (record_of_binding alias_text) (unused_bindings alias_tree),
     Some alias_tree)
  /\ ~ In (Import [Alias "numpy" (Some "np")] 1 0 18,
           Alias "numpy" (Some "np"))
          (unused_bindings alias_tree).
Proof.
  apply (referenced_binding_not_reported parse_samples "m.py" false
           (one_file "m.py" alias_text) alias_text alias_tree
           (Attribute (Name "np" Load) "zeros" Load)).
  - vm_compute; reflexivity.
  - vm_compute; reflexivity.
  - in_sample_tree.
  - reflexivity.
Defined.

(** C9: [find_unused_imports] returns the same result, and leaves the same
    world, for [aggressive = true] and [aggressive = false]. *)
Theorem aggressive_is_inert (ast_parse : string -> string + node)
    (filepath : string) (w : world) :
  find_unused_imports ast_parse filepath true w
  = find_unused_imports ast_parse filepath false w.
Proof. reflexivity. Qed.

(** C4 fails as stated: on a POSIX platform, removing line 1 of the file
    [import os] / [x = 1] with CR LF terminators leaves [x = 1] with an LF
    terminator, not the original second line. *)
Lemma crlf_terminator_rewritten :
  files (remove_unused_imports "m.py" [(1%Z, "import os")] false
           (one_file "m.py" crlf_text)) !! "m.py"
  = Some (Regular ("x = 1" +:+ nl))
  /\ lines_except (disk_lines crlf_text) (map fst [(1%Z, "import os")])
     = ["x = 1" +:+ crlf]
  /\ files (remove_unused_imports "m.py" [(1%Z, "import os")] false
              (one_file "m.py" crlf_text)) !! "m.py"
     <> Some (Regular
                (writelines
                   (lines_except (disk_lines crlf_text)
                      (map fst [(1%Z, "import os")])))).
Proof.
  assert (H : files (remove_unused_imports "m.py" [(1%Z, "import os")] false
                       (one_file "m.py" crlf_text)) !! "m.py"
              = Some (Regular ("x = 1" +:+ nl)))
    by (vm_compute; reflexivity).
  split; [exact H|]. split; [vm_compute; reflexivity|].
  rewrite H. vm_compute. discriminate.
Qed.

(** C4, amended: with a non-empty list of records and without [dry_run],
    [remove_unused_imports] replaces the file by its lines, as text mode
    reads them, except those whose 1-based number is the line number of a
    record; the kept lines stay in order, each with its text and with its
    terminator written as [os.linesep], and reading the new file gives
    exactly the kept lines.  When every terminator of the file is
    [os.linesep], the new file is the original lines on disk, terminators
    included, without the numbered ones. *)
Theorem removal_keeps_other_lines (filepath disk : string)
    (unused : list record) (w : world) :
  files w !! filepath = Some (Regular disk) ->
  unused <> [] ->
  exists new,
    files (remove_unused_imports filepath unused false w)
    = <[filepath := Regular new]> (files w)
    /\ writelines (readlines (universal_newlines disk))
       = universal_newlines disk
    /\ lines_wf (readlines (universal_newlines disk))
    /\ new = to_disk (os w)
               (writelines
                  (lines_except (readlines (universal_newlines disk))
                     (map fst unused)))
    /\ readlines (universal_newlines new)
       = lines_except (readlines (universal_newlines disk)) (map fst unused)
    /\ (native_newlines (os w) disk ->
        writelines (disk_lines disk) = disk
        /\ new = writelines (lines_except (disk_lines disk) (map fst unused))
        /\ disk_lines new
           = lines_except (disk_lines disk) (map fst unused)).
Proof.
  intros Hfile Hne.
  pose proof (universal_newlines_no_cr disk) as Hcr.
  set (text := universal_newlines disk) in *.
  set (kept := lines_except (readlines text) (map fst unused)).
  exists (to_disk (os w) (writelines kept)).
  split; [|split; [|split; [|split; [|split]]]].
  - rewrite (remove_rewrites _ _ _ _ (open_read_regular _ _ _ Hfile) Hne).
    fold text. now rewrite new_lines_except.
  - apply writelines_readlines.
  - apply readlines_wf.
  - reflexivity.
  - now apply read_back_kept_lines.
  - intros Hnative. unfold native_newlines in Hnative. fold text in Hnative.
    assert (Hlines : disk_lines disk = map (to_disk (os w)) (readlines text))
      by (rewrite <- Hnative at 1; now apply disk_lines_to_disk).
    split; [|split].
    + rewrite Hlines, <- to_disk_writelines, writelines_readlines.
      exact Hnative.
    + rewrite to_disk_writelines, Hlines. unfold kept, lines_except.
      now rewrite lines_except_from_map.
    + rewrite disk_lines_to_disk by now apply lines_except_no_cr.
      rewrite readlines_writelines
        by now apply lines_except_wf, readlines_wf.
      rewrite Hlines. unfold kept, lines_except.
      now rewrite lines_except_from_map.
Qed.

Lemma removal_keeps_other_lines_witness :
  exists new,
    files (remove_unused_imports "m.py" [(1%Z, "import os, sys")] false
             (one_file "m.py" multi_text))
    = <["m.py" := Regular new]> (files (one_file "m.py" multi_text))
    /\ new = "print(os.getcwd())" +:+ nl
    /\ disk_lines new
       = lines_except (disk_lines multi_text) [1%Z].
Proof.
  destruct (removal_keeps_other_lines "m.py" multi_text
              [(1%Z, "import os, sys")] (one_file "m.py" multi_text))
    as (new & Hfiles & _ & _ & Hnew & _ & Hnative).
  - vm_compute; reflexivity.
  - discriminate.
  - exists new. split; [exact Hfiles|].
    split; [rewrite Hnew; vm_compute; reflexivity|].
    apply Hnative. vm_compute; reflexivity.
Defined.

(** C5: with [dry_run], [remove_unused_imports] leaves every file as it
    was and performs no write, whatever the list of records. *)
Theorem dry_run_changes_nothing (filepath : string) (unused : list record)
    (w : world) :
  files (remove_unused_imports filepath unused true w) = files w
  /\ writes (trace (remove_unused_imports filepath unused true w))
     = writes (trace w).
Proof. apply remove_dry_run. Qed.

(** C6: when the text read from the file is rejected by the parser,
    [find_unused_imports] logs the syntax error and returns the empty list
    with no tree; [main] then ends with status 0, the file is as it was and
    nothing is written. *)
Theorem syntax_error_is_reported (ast_parse : string -> string + node)
    (args : arguments) (w : world) (content e : string) :
  open_read (arg_filepath args) w = inr content ->
  ast_parse content = inl e ->
  find_unused_imports ast_parse (arg_filepath args) (arg_aggressive args) w
  = (([], None), logging ERROR (MsgSyntaxError (arg_filepath args) e) w)
  /\ fst (main ast_parse args w) = 0%Z
  /\ In (Logged ERROR (MsgSyntaxError (arg_filepath args) e))
        (trace (snd (main ast_parse args w)))
  /\ files (snd (main ast_parse args w)) = files w
  /\ writes (trace (snd (main ast_parse args w))) = writes (trace w).
Proof.
  intros Hread Hparse.
  assert (Hfind : forall w0, files w0 = files w ->
            find_unused_imports ast_parse (arg_filepath args)
              (arg_aggressive args) w0
            = (([], None),
               logging ERROR (MsgSyntaxError (arg_filepath args) e) w0)).
  { intros w0 Hw0. unfold find_unused_imports.
    rewrite (open_read_files _ w0 w Hw0), Hread.
    now rewrite Hparse. }
  split; [now apply Hfind|].
  destruct (open_read_inv _ _ _ Hread) as (disk & Hfile & _).
  destruct (main_existing ast_parse args w) as (w1 & Hf1 & Hw1 & ->);
    [eauto|].
  rewrite (Hfind w1 Hf1). cbn [fst snd]. rewrite remove_nothing.
  split; [reflexivity|]. split; [|split].
  - simpl. rewrite !in_app_iff. simpl. tauto.
  - now rewrite !logging_files.
  - now rewrite !logging_writes.
Qed.

Lemma syntax_error_is_reported_witness :
  find_unused_imports parse_samples "m.py" false (one_file "m.py" broken_text)
  = (([], None),
     logging ERROR (MsgSyntaxError "m.py" "invalid syntax")
       (one_file "m.py" broken_text))
  /\ fst (main parse_samples plain_args (one_file "m.py" broken_text)) = 0%Z
  /\ In (Logged ERROR (MsgSyntaxError "m.py" "invalid syntax"))
        (trace (snd (main parse_samples plain_args
                       (one_file "m.py" broken_text))))
  /\ files (snd (main parse_samples plain_args (one_file "m.py" broken_text)))
     = files (one_file "m.py" broken_text)
  /\ writes (trace (snd (main parse_samples plain_args
                           (one_file "m.py" broken_text))))
     = writes (trace (one_file "m.py" broken_text)).
Proof.
  apply (syntax_error_is_reported parse_samples plain_args
           (one_file "m.py" broken_text) broken_text "invalid syntax").
  - vm_compute; reflexivity.
  - vm_compute; reflexivity.
Defined.

(** C7: for a file whose tree holds no import statement,
    [find_unused_imports] returns the empty list, and the removal that
    follows, in [main] or called directly, changes no file and writes
    nothing. *)
Theorem no_import_no_rewrite (ast_parse : string -> string + node)
    (args : arguments) (w : world) (content : string) (tree : node) :
  open_read (arg_filepath args) w = inr content ->
  ast_parse content = inr tree ->
  (forall n, occurs_in tree n -> is_import n = false) ->
  find_unused_imports ast_parse (arg_filepath args) (arg_aggressive args) w
  = (([], Some tree), w)
  /\ files (remove_unused_imports (arg_filepath args) [] (arg_dry_run args) w)
     = files w
  /\ writes (trace (remove_unused_imports (arg_filepath args) []
                      (arg_dry_run args) w))
     = writes (trace w)
  /\ files (snd (main ast_parse args w)) = files w
  /\ writes (trace (snd (main ast_parse args w))) = writes (trace w).
Proof.
  intros Hfile Hparse Hfree.
  assert (Hfind :
            find_unused_imports ast_parse (arg_filepath args)
              (arg_aggressive args) w = (([], Some tree), w)).
  { rewrite (find_parsed _ _ _ _ _ _ Hfile Hparse).
    now rewrite unused_imports_of_import_free. }
  split; [exact Hfind|].
  rewrite remove_nothing, logging_files, logging_writes.
  split; [reflexivity|]. split; [reflexivity|].
  apply main_nothing_found. now rewrite Hfind.
Qed.

Lemma no_import_no_rewrite_witness :
  find_unused_imports parse_samples "m.py" false
    (one_file "m.py" no_import_text)
  = (([], Some no_import_tree), one_file "m.py" no_import_text)
  /\ files (remove_unused_imports "m.py" [] false
              (one_file "m.py" no_import_text))
     = files (one_file "m.py" no_import_text)
  /\ writes (trace (remove_unused_imports "m.py" [] false
                      (one_file "m.py" no_import_text)))
     = writes (trace (one_file "m.py" no_import_text))
  /\ files (snd (main parse_samples plain_args
                   (one_file "m.py" no_import_text)))
     = files (one_file "m.py" no_import_text)
  /\ writes (trace (snd (main parse_samples plain_args
                           (one_file "m.py" no_import_text))))
     = writes (trace (one_file "m.py" no_import_text)).
Proof.
  apply (no_import_no_rewrite parse_samples plain_args
           (one_file "m.py" no_import_text) no_import_text no_import_tree).
  - vm_compute; reflexivity.
  - vm_compute; reflexivity.
  - apply import_free_by_walk. vm_compute; reflexivity.
Defined.




(** C10: when an import statement of the tree has an alias whose effective
    local name is not among the collected names, a run of [main] without
    [dry_run] rewrites the file without the line that carries the line
    number of the statement: the lines read from the new file are the kept
    lines before that position followed by the kept lines after it, the
    line at that position being left out whatever other aliases the
    statement has; an alias of the same statement whose name is referenced
    is not itself reported.  [content] is the text read from the file. *)
Theorem shared_line_removed_whole (ast_parse : string -> string + node)
    (args : arguments) (w : world) (content : string) (tree stmt : node)
    (a : alias) :
  open_read (arg_filepath args) w = inr content ->
  ast_parse content = inr tree ->
  arg_dry_run args = false ->
  occurs_in tree stmt ->
  is_import stmt = true ->
  In a (stmt_names stmt) ->
  imported_name a ∉ collect_names tree ->
  exists text,
    In (stmt_lineno stmt) (map fst (unused_imports_of content tree))
    /\ open_read (arg_filepath args) (snd (main ast_parse args w)) = inr text
    /\ readlines text
       = lines_except (readlines content)
           (map fst (unused_imports_of content tree))
    /\ (forall before line after,
          readlines content = before ++ line :: after ->
          stmt_lineno stmt = (Z.of_nat (length before) + 1)%Z ->
          readlines text
          = lines_except before (map fst (unused_imports_of content tree))
            ++ lines_except_from (stmt_lineno stmt + 1) after
                 (map fst (unused_imports_of content tree)))
    /\ (forall b, In b (stmt_names stmt) ->
                  imported_name b ∈ collect_names tree ->
                  ~ In (stmt, b) (unused_bindings tree)).
Proof.
  intros Hread Hparse Hdry Hocc Himp Ha Hunused.
  assert (Hrec : In (stmt_lineno stmt)
                    (map fst (unused_imports_of content tree))).
  { rewrite unused_imports_of_bindings, map_map. apply in_map_iff.
    exists (stmt, a). split; [reflexivity|].
    apply in_unused_bindings. auto. }
  destruct (removal_lines_of_main ast_parse args w content tree)
    as (text & Htext & Hlines); try assumption.
  { intros Hnil. rewrite Hnil in Hrec. contradiction. }
  exists text. split; [exact Hrec|]. split; [exact Htext|].
  split; [exact Hlines|]. split.
  - intros before line after Hsplit Hpos.
    rewrite Hlines, Hsplit. unfold lines_except.
    rewrite lines_except_from_app.
    rewrite lines_except_from_dropped by (rewrite Z.add_comm, <- Hpos; exact Hrec).
    do 2 f_equal. lia.
  - intros b _ Hb Hin. apply in_unused_bindings in Hin. tauto.
Qed.

Lemma shared_line_removed_whole_witness :
  exists text,
    In 1%Z (map fst (unused_imports_of multi_text multi_tree))
    /\ open_read "m.py" (snd (main parse_samples plain_args
                                (one_file "m.py" multi_text)))
       = inr text
    /\ readlines text = ["print(os.getcwd())" +:+ nl].
Proof.
  destruct (shared_line_removed_whole parse_samples plain_args
              (one_file "m.py" multi_text) multi_text multi_tree
              (Import [Alias "os" None; Alias "sys" None] 1 0 14)
              (Alias "sys" None))
    as (text & Hin & Hread & _ & Hsplit & _).
  - vm_compute; reflexivity.
  - vm_compute; reflexivity.
  - reflexivity.
  - in_sample_tree.
  - reflexivity.
  - right; left; reflexivity.
  - apply (bool_decide_unpack _). vm_compute. exact I.
  - exists text. split; [exact Hin|]. split; [exact Hread|].
    rewrite (Hsplit [] ("import os, sys" +:+ nl)
               ["print(os.getcwd())" +:+ nl]).
    + vm_compute; reflexivity.
    + vm_compute; reflexivity.
    + reflexivity.
Defined.

End Claims.

(** ** Facts about positions in a text *)

Module PositionFacts.

Import PyStr Notions TextFacts.

Lemma append_assoc (a b c : string) :
  String.append (String.append a b) c = String.append a (String.append b c).
Proof.
  induction a as [|x a IH]; [reflexivity|].
  now rewrite !append_cons, IH.
Qed.

Lemma length_append (a b : string) :
  String.length (String.append a b) = String.length a + String.length b.
Proof.
  induction a as [|x a IH]; [reflexivity|].
  rewrite append_cons. simpl. now rewrite IH.
Qed.

Lemma substring_all (s : string) : String.substring 0 (String.length s) s = s.
Proof. induction s as [|x s IH]; simpl; congruence. Qed.

Lemma substring_past (a b : string) (n m : nat) :
  String.substring (String.length a + n) m (String.append a b)
  = String.substring n m b.
Proof.
  induction a as [|x a IH]; [reflexivity|].
  rewrite append_cons. simpl. exact IH.
Qed.

Lemma substring_head (a b : string) (m : nat) :
  String.substring 0 (String.length a + m) (String.append a b)
  = String.append a (String.substring 0 m b).
Proof.
  induction a as [|x a IH]; [reflexivity|].
  rewrite !append_cons. simpl. now rewrite IH.
Qed.

Lemma substring_prefix (a b : string) :
  String.substring 0 (String.length a) (String.append a b) = a.
Proof.
  rewrite <- (Nat.add_0_r (String.length a)), substring_head.
  destruct b; simpl; apply append_empty_r.
Qed.

Lemma substring_middle (a b c : string) :
  String.substring (String.length a) (String.length b)
    (String.append a (String.append b c)) = b.
Proof.
  rewrite <- (Nat.add_0_r (String.length a)), substring_past.
  apply substring_prefix.
Qed.

Lemma occurs_append (c : ascii) (a b : string) :
  occurs c (String.append a b) = occurs c a || occurs c b.
Proof.
  induction a as [|x a IH]; [reflexivity|].
  rewrite append_cons. simpl. now rewrite IH, orb_assoc.
Qed.

Lemma occurs_substring (c : ascii) (s : string) (n m : nat) :
  occurs c s = false -> occurs c (String.substring n m s) = false.
Proof.
  revert n m. induction s as [|x s IH]; intros n m Hs.
  - destruct n, m; reflexivity.
  - simpl in Hs. apply orb_false_iff in Hs. destruct Hs as [Hx Hs].
    destruct n; [destruct m|]; simpl; rewrite ?Hx; simpl; auto.
Qed.

Lemma index_first_absent (c : ascii) (s : string) (i : Z) :
  occurs c s = false -> index_first c s i = (-1)%Z.
Proof.
  revert i. induction s as [|x s IH]; intros i Hs; [reflexivity|].
  simpl in *. apply orb_false_iff in Hs. destruct Hs as [-> Hs]. auto.
Qed.

Lemma index_first_found (c : ascii) (a b : string) (i : Z) :
  occurs c a = false ->
  index_first c (String.append a (String c b)) i
  = (i + Z.of_nat (String.length a))%Z.
Proof.
  revert i. induction a as [|x a IH]; intros i Ha.
  - simpl. rewrite Ascii.eqb_refl. lia.
  - rewrite append_cons. simpl in *.
    apply orb_false_iff in Ha. destruct Ha as [-> Ha].
    rewrite IH by assumption. lia.
Qed.

Lemma index_last_absent (c : ascii) (s : string) (i : Z) :
  occurs c s = false -> index_last c s i = (-1)%Z.
Proof.
  revert i. induction s as [|x s IH]; intros i Hs; [reflexivity|].
  simpl in *. apply orb_false_iff in Hs. destruct Hs as [-> Hs].
  now rewrite IH.
Qed.

Lemma index_last_found (c : ascii) (a b : string) (i : Z) :
  (0 <= i)%Z -> occurs c b = false ->
  index_last c (String.append a (String c b)) i
  = (i + Z.of_nat (String.length a))%Z.
Proof.
  revert i. induction a as [|x a IH]; intros i Hi Hb.
  - simpl. rewrite index_last_absent by assumption.
    simpl. rewrite Ascii.eqb_refl. lia.
  - rewrite append_cons. simpl. rewrite IH by (assumption || lia).
    destruct (0 <=? _)%Z eqn:Hle; [lia|]. apply Z.leb_gt in Hle. lia.
Qed.

Lemma adjust_index_in_range (i n : Z) :
  (0 <= i <= n)%Z -> adjust_index i n = i.
Proof.
  intros Hi. unfold adjust_index.
  destruct (i <? 0)%Z eqn:Hneg; [apply Z.ltb_lt in Hneg|]; lia.
Qed.

(** [find] from a position, when the text is split at that position and
    the next newline is known. *)
Lemma find_split (a l rest : string) :
  occurs newline l = false ->
  find (String.append a (String.append l (String newline rest))) newline
       (Z.of_nat (String.length a))
  = Z.of_nat (String.length a + String.length l).
Proof.
  intros Hl. unfold find, len.
  rewrite !length_append. simpl String.length.
  rewrite adjust_index_in_range by lia. rewrite Nat2Z.id.
  rewrite <- (Nat.add_0_r (String.length a)) at 1.
  rewrite substring_past.
  replace (Z.to_nat _) with
    (String.length (String.append l (String newline rest)))
    by (rewrite length_append; simpl; lia).
  rewrite substring_all, index_first_found by assumption. lia.
Qed.

(** [find] in a text without newline. *)
Lemma find_absent (s : string) (start : Z) :
  occurs newline s = false -> find s newline start = (-1)%Z.
Proof.
  intros Hs. unfold find.
  now apply index_first_absent, occurs_substring.
Qed.

Lemma rfind_absent (s : string) (start stop : Z) :
  occurs newline s = false -> rfind s newline start stop = (-1)%Z.
Proof.
  intros Hs. unfold rfind.
  now apply index_last_absent, occurs_substring.
Qed.

(** [rfind] before a position: one past the result is the start of the line
    that holds the position. *)
Lemma rfind_split (pre l rest : string) :
  pre = EmptyString \/ (exists p, pre = String.append p nl) ->
  occurs newline l = false ->
  (rfind (String.append pre (String.append l rest)) newline 0
         (Z.of_nat (String.length pre + String.length l)) + 1)%Z
  = Z.of_nat (String.length pre).
Proof.
  intros Hpre Hl. unfold rfind, len.
  rewrite !length_append.
  rewrite !adjust_index_in_range by lia.
  rewrite Z.sub_0_r, Nat2Z.id. change (Z.to_nat 0) with 0.
  rewrite <- append_assoc, <- length_append, substring_prefix.
  destruct Hpre as [->|[p ->]].
  - rewrite append_empty_l, index_last_absent by assumption. reflexivity.
  - unfold nl. rewrite append_assoc, append_cons, append_empty_l.
    rewrite index_last_found by (assumption || lia).
    rewrite length_append. simpl. lia.
Qed.

End PositionFacts.

(** ** Further properties of the program *)

Module Extras.

Import PyStr Ast World Main Spec Samples Notions.
Import AstFacts TextFacts DetectionFacts RunFacts NewlineFacts MainFacts.
Import PositionFacts.

Lemma slice_middle (a b c : string) (start : option Z) :
  default 0%Z start = Z.of_nat (String.length a) ->
  slice (String.append a (String.append b c)) start
        (Z.of_nat (String.length a + String.length b))
  = b.
Proof.
  intros Hstart. unfold slice, len. rewrite Hstart, !length_append.
  rewrite !adjust_index_in_range by lia.
  replace (Z.to_nat (_ - _)) with (String.length b) by lia.
  rewrite Nat2Z.id. apply substring_middle.
Qed.

(** X1 (line 90): the text put in a record is the line that holds character
    position [lineno - 1] of the file, without its terminator: when the
    text is cut as [pre ++ l1 ++ l2 ++ newline ++ post], with [pre] empty or
    ending a line, [l1 ++ l2] free of newlines and [lineno - 1] the length
    of [pre ++ l1], the statement text of line number [lineno] is
    [l1 ++ l2]. *)
Theorem import_statement_is_line_of_position
    (pre l1 l2 post : string) (lineno : Z) :
  pre = EmptyString \/ (exists p, pre = p +:+ nl) ->
  occurs newline l1 = false ->
  occurs newline l2 = false ->
  (lineno - 1)%Z = Z.of_nat (String.length pre + String.length l1) ->
  import_statement (pre +:+ l1 +:+ l2 +:+ nl +:+ post) lineno = l1 +:+ l2.
Proof.
  intros Hpre H1 H2 Hk. unfold import_statement. rewrite Hk.
  change (nl +:+ post) with (String newline post).
  assert (Hfind :
    find (pre +:+ l1 +:+ l2 +:+ String newline post) newline
         (Z.of_nat (String.length pre + String.length l1))
    = Z.of_nat (String.length pre + (String.length l1 + String.length l2))).
  { rewrite <- (append_assoc pre l1), <- length_append.
    rewrite find_split by assumption. rewrite length_append. f_equal. lia. }
  rewrite Hfind.
  destruct (lineno >? 1)%Z eqn:Hgt.
  - rewrite rfind_split by assumption.
    rewrite <- (append_assoc l1 l2), <- length_append.
    now apply slice_middle.
  - assert (String.length pre = 0 /\ String.length l1 = 0) as [Hp Hl]
      by (rewrite Z.gtb_ltb in Hgt; apply Z.ltb_ge in Hgt; lia).
    destruct pre; [|discriminate]. destruct l1; [|discriminate].
    rewrite !append_empty_l.
    exact (slice_middle EmptyString l2 (String newline post) None eq_refl).
Qed.

Lemma import_statement_is_line_of_position_witness :
  import_statement
    (EmptyString +:+ "i" +:+ "mport os" +:+ nl +:+ ("import sys" +:+ nl)) 2
  = "i" +:+ "mport os".
Proof.
  apply (import_statement_is_line_of_position
           EmptyString "i" "mport os" ("import sys" +:+ nl) 2).
  - left; reflexivity.
  - reflexivity.
  - reflexivity.
  - reflexivity.
Defined.

(** X2 (line 90): in a text without any newline, [content.find] returns
    [-1] and the slice ends one character early: the statement text is the
    file without its last character, for every line number. *)
Theorem import_statement_unterminated (content : string) (lineno : Z) :
  occurs newline content = false ->
  import_statement content lineno = drop_last content.
Proof.
  intros Hc. unfold import_statement.
  rewrite find_absent, rfind_absent by assumption.
  assert (Hslice : forall start, default 0%Z start = 0%Z ->
            slice content start (-1) = drop_last content).
  { intros start Hs. unfold slice, drop_last, len. rewrite Hs.
    rewrite adjust_index_in_range by lia.
    unfold adjust_index. change (-1 <? 0)%Z with true. cbv iota.
    change (Z.to_nat 0) with 0. f_equal. lia. }
  destruct (lineno >? 1)%Z; now apply Hslice.
Qed.

Lemma import_statement_unterminated_witness :
  import_statement unterminated_text 1 = drop_last unterminated_text.
Proof.
  apply (import_statement_unterminated unterminated_text 1). reflexivity.
Defined.

Lemma add_names_spec (acc : gset string) (n : node) (x : string) :
  x ∈ add_names acc n <-> x ∈ acc \/ referenced_name n = Some x.
Proof.
  destruct n; simpl;
    try (split; [now left | intros [?|?]; [assumption | discriminate]]).
  - rewrite elem_of_union, elem_of_singleton.
    split; intros [H|H]; auto; [subst; auto | injection H; auto].
  - destruct (attribute_chain _ _) as [name|].
    + rewrite elem_of_union, elem_of_singleton.
      split; intros [H|H]; auto; [subst; auto | injection H; auto].
    + split; [now left | intros [?|?]; [assumption | discriminate]].
Qed.

Lemma foldl_add_names_spec (l : list node) (acc : gset string) (x : string) :
  x ∈ foldl add_names acc l <->
  x ∈ acc \/ exists n, In n l /\ referenced_name n = Some x.
Proof.
  revert acc. induction l as [|n l IH]; intros acc; simpl.
  - split; [now left | intros [?|(? & [] & _)]; assumption].
  - rewrite IH, add_names_spec. split.
    + intros [[H|H]|(m & Hm & H)]; eauto.
    + intros [H|(m & [<-|Hm] & H)]; eauto.
Qed.

(** Membership in the set of collected names. *)
Lemma collect_names_iff (tree : node) (x : string) :
  x ∈ collect_names tree <->
  exists n, occurs_in tree n /\ referenced_name n = Some x.
Proof.
  unfold collect_names. rewrite foldl_add_names_spec, elem_of_empty. split.
  - intros [[]|(n & Hn & H)]. eauto using walk_occurs_in.
  - intros (n & Hn & H). right. eauto using occurs_in_walk.
Qed.

(** X3 (lines 64-78): the set built by the first loop holds exactly the
    identifiers of the [Name] nodes of the tree and the dotted names of its
    [Attribute] chains rooted at a [Name]; nothing else is ever added. *)
Theorem collect_names_exact (tree : node) (x : string) :
  x ∈ collect_names tree <->
  exists n, occurs_in tree n /\ referenced_name n = Some x.
Proof. exact (collect_names_iff tree x). Qed.

(** Membership in the list of records. *)
Lemma in_unused_imports_of (content : string) (tree : node)
    (lineno : Z) (text : string) :
  In (lineno, text) (unused_imports_of content tree) <->
  exists stmt a,
    occurs_in tree stmt /\ is_import stmt = true /\
    In a (stmt_names stmt) /\ (imported_name a ∉ collect_names tree) /\
    lineno = stmt_lineno stmt /\ text = import_statement content lineno.
Proof.
  rewrite unused_imports_of_bindings, in_map_iff. split.
  - intros ([stmt a] & Hrec & Hin). apply in_unused_bindings in Hin.
    unfold record_of_binding in Hrec. simpl in Hrec.
    injection Hrec as <- <-. exists stmt, a. tauto.
  - intros (stmt & a & Hocc & Himp & Ha & Hx & -> & ->).
    exists (stmt, a). split; [reflexivity|].
    apply in_unused_bindings. auto.
Qed.

(** X4 (lines 80-92): a pair is in the list computed by the second loop
    exactly when the tree holds an import statement with that line number
    and an alias whose effective local name is not in the set of names,
    the text being the one line 90 computes for that line number. *)
Theorem record_iff_unused_alias (content : string) (tree : node)
    (lineno : Z) (text : string) :
  In (lineno, text) (unused_imports_of content tree) <->
  exists stmt a,
    occurs_in tree stmt /\ is_import stmt = true /\
    In a (stmt_names stmt) /\ (imported_name a ∉ collect_names tree) /\
    lineno = stmt_lineno stmt /\ text = import_statement content lineno.
Proof. exact (in_unused_imports_of content tree lineno text). Qed.

Lemma dotted_suffix_app (l1 l2 : list (string * expr_context)) :
  dotted_suffix (l1 ++ l2) = dotted_suffix l1 +:+ dotted_suffix l2.
Proof.
  induction l1 as [|b l1 IH].
  - reflexivity.
  - change (dotted_suffix ((b :: l1) ++ l2))
      with ("." +:+ fst b +:+ dotted_suffix (l1 ++ l2)).
    change (dotted_suffix (b :: l1)) with ("." +:+ fst b +:+ dotted_suffix l1).
    now rewrite IH, !append_assoc.
Qed.

Lemma attribute_chain_chain_of (attrs : list (string * expr_context))
    (root : node) (name : string) :
  attribute_chain (chain_of root attrs) name
  = attribute_chain root (dotted_suffix attrs +:+ name).
Proof.
  revert root name.
  induction attrs as [|a attrs IH] using rev_ind; intros root name.
  - reflexivity.
  - unfold chain_of. rewrite fold_left_app.
    change (attribute_chain (chain_of root attrs) ("." +:+ fst a +:+ name)
            = attribute_chain root (dotted_suffix (attrs ++ [a]) +:+ name)).
    rewrite IH, dotted_suffix_app. f_equal.
    change (dotted_suffix [a]) with ("." +:+ fst a +:+ EmptyString).
    now rewrite !append_assoc, append_empty_l.
Qed.

(** The name added for a chain of attributes. *)
Lemma referenced_name_chain_of (x : string) (ctx : expr_context)
    (a : string * expr_context) (attrs : list (string * expr_context)) :
  referenced_name (chain_of (Name x ctx) (a :: attrs))
  = Some (x +:+ dotted_suffix (a :: attrs)).
Proof.
  assert (H : attribute_chain (chain_of (Name x ctx) (a :: attrs)) EmptyString
              = Some (x +:+ dotted_suffix (a :: attrs))).
  { rewrite attribute_chain_chain_of. simpl attribute_chain.
    now rewrite append_empty_r. }
  rewrite <- H. clear H.
  destruct attrs as [|b attrs] using rev_ind; [reflexivity|].
  unfold chain_of. rewrite app_comm_cons, fold_left_app. reflexivity.
Qed.

(** X5 (lines 70-78): for the expression [x.a1.a2...an] the loop builds
    the name [x] followed by [.a1], [.a2], ... in source order. *)
Theorem dotted_name_of_chain (x : string) (ctx : expr_context)
    (a : string * expr_context) (attrs : list (string * expr_context)) :
  referenced_name (chain_of (Name x ctx) (a :: attrs))
  = Some (x +:+ dotted_suffix (a :: attrs)).
Proof. exact (referenced_name_chain_of x ctx a attrs). Qed.

Lemma occurs_in_chain_prefix (tree root : node)
    (attrs1 attrs2 : list (string * expr_context)) :
  occurs_in tree (chain_of root (attrs1 ++ attrs2)) ->
  occurs_in tree (chain_of root attrs1).
Proof.
  induction attrs2 as [|a attrs2 IH] using rev_ind.
  - now rewrite app_nil_r.
  - intros H. apply IH. rewrite app_assoc in H.
    unfold chain_of in H. rewrite fold_left_app in H. simpl in H.
    eapply occurs_child; [exact H | now left].
Qed.

(** X6 (lines 65-78, 84-85): when [x.a1...an] occurs in the tree, every
    prefix [x], [x.a1], [x.a1.a2], ... is in the set of names, so that an
    import whose effective local name is such a prefix (as [import os.path]
    with a use of [os.path.join]) is not reported. *)
Theorem chain_prefixes_are_referenced (tree : node) (x : string)
    (ctx : expr_context) (attrs1 attrs2 : list (string * expr_context))
    (stmt : node) (a : alias) :
  occurs_in tree (chain_of (Name x ctx) (attrs1 ++ attrs2)) ->
  imported_name a = x +:+ dotted_suffix attrs1 ->
  imported_name a ∈ collect_names tree
  /\ ~ In (stmt, a) (unused_bindings tree).
Proof.
  intros Hocc Hname. apply occurs_in_chain_prefix in Hocc.
  assert (Hin : imported_name a ∈ collect_names tree).
  { apply collect_names_iff. eexists. split; [exact Hocc|].
    rewrite Hname. destruct attrs1 as [|b attrs1].
    - simpl. now rewrite append_empty_r.
    - apply referenced_name_chain_of. }
  split; [exact Hin|].
  intros H. apply in_unused_bindings in H. tauto.
Qed.

Lemma chain_prefixes_are_referenced_witness :
  imported_name (Alias "os.path" None) ∈ collect_names dotted_tree
  /\ ~ In (Import [Alias "os.path" None] 1 0 14, Alias "os.path" None)
          (unused_bindings dotted_tree).
Proof.
  apply (chain_prefixes_are_referenced dotted_tree "os" Load
           [("path", Load)] [("join", Load)]).
  - apply walk_occurs_in. vm_compute.
    repeat first [left; reflexivity | right].
  - reflexivity.
Defined.

Lemma occurs_in_walk_forest (todo : list node) (c m : node) :
  In c todo -> occurs_in c m -> In m (walk_forest todo).
Proof.
  destruct (walk_forest_complete (forest_size todo) todo (le_n _)) as [H1 H2].
  intros Hc. induction 1 as [|n d _ IH Hd].
  - now apply H1.
  - eapply H2; eassumption.
Qed.

Lemma import_free_below_by_walk (n : node) :
  forallb (fun m => negb (is_import m)) (walk_forest (iter_child_nodes n))
  = true ->
  import_free_below n.
Proof.
  intros Hall c m Hc Hm. rewrite forallb_forall in Hall.
  specialize (Hall m (occurs_in_walk_forest _ _ _ Hc Hm)).
  now destruct (is_import m).
Qed.

Lemma no_import_no_record (content : string) (all_names : gset string)
    (l : list node) :
  (forall m, In m l -> is_import m = false) ->
  flat_map (node_records content all_names) l = [].
Proof.
  induction l as [|n l IH]; intros H; simpl; [reflexivity|].
  rewrite node_records_not_import by (apply H; now left).
  apply IH. intros m Hm. apply H. now right.
Qed.

(** X7 (lines 80-92): when every import statement of the file is a
    statement of the module body (none lies inside a function, class or
    other block) and these statements carry non-decreasing line numbers,
    the whole list of records is ordered top to bottom. *)
Theorem module_level_imports_top_to_bottom (content : string)
    (body : list node) :
  (forall s, In s body -> import_free_below s) ->
  level_in_source_order body ->
  top_to_bottom (unused_imports_of content (Other body)).
Proof.
  intros Hfree Hsorted. unfold unused_imports_of.
  set (names := collect_names (Other body)).
  assert (Hwalk : walk (Other body)
            = Other body :: body
              ++ walk_forest (flat_map iter_child_nodes body)).
  { unfold walk. rewrite walk_forest_cons.
    change ([] ++ iter_child_nodes (Other body)) with body. f_equal.
    pose proof (walk_forest_app body []) as Happ.
    now rewrite app_nil_r in Happ. }
  rewrite Hwalk. simpl flat_map. rewrite flat_map_app.
  rewrite (no_import_no_record _ _ (walk_forest _)), app_nil_r.
  - now apply level_records_sorted.
  - intros m Hm.
    destruct (walk_forest_sound _ _ (le_n _) m Hm) as (root & Hroot & Hocc).
    apply in_flat_map in Hroot. destruct Hroot as (s & Hs & Hchild).
    exact (Hfree s Hs root m Hchild Hocc).
Qed.

Lemma module_level_imports_top_to_bottom_witness :
  top_to_bottom (unused_imports_of top_level_text top_level_tree).
Proof.
  apply (module_level_imports_top_to_bottom top_level_text
           [ Import [Alias "os" None] 1 0 9;
             Import [Alias "sys" None] 2 0 10;
             Other [ Other [ Name "print" Load;
                             Attribute (Name "sys" Load) "argv" Load ] ] ]).
  - intros s Hs. apply import_free_below_by_walk.
    destruct Hs as [<-|[<-|[<-|[]]]]; vm_compute; reflexivity.
  - unfold level_in_source_order. vm_compute.
    repeat constructor; intro; discriminate.
Defined.

Lemma logging_loop_trace {A} (lv : level) (m : A -> message) (l : list A)
    (w : world) :
  trace (foldl (fun w r => logging lv (m r) w) w l)
  = trace w ++ map (fun r => Logged lv (m r)) l.
Proof.
  revert w. induction l as [|r l IH]; intros w; simpl.
  - now rewrite app_nil_r.
  - rewrite IH. simpl. now rewrite <- app_assoc.
Qed.

(** The single write of a run that rewrites the file. *)
Lemma remove_writes (filepath content : string) (unused : list record)
    (w : world) :
  open_read filepath w = inr content -> unused <> [] ->
  trace (remove_unused_imports filepath unused false w)
  = trace w
    ++ Wrote filepath
         (to_disk (os w) (writelines (new_lines (readlines content) unused)))
    :: Logged INFO (MsgRemovedFrom filepath)
    :: map (fun r => Logged INFO (MsgRemovedLine (fst r) (strip (snd r))))
           unused.
Proof.
  intros Hread Hne. unfold remove_unused_imports.
  destruct unused as [|r unused]; [contradiction|].
  rewrite Hread. unfold open_write.
  destruct (open_read_inv _ _ _ Hread) as (disk & Hfile & _).
  rewrite Hfile. cbv beta iota zeta.
  rewrite (logging_loop_trace INFO
             (fun r : Z * string => MsgRemovedLine (fst r) (strip (snd r)))).
  simpl trace. now rewrite <- !app_assoc.
Qed.

Lemma writes_of_logs {A} (lv : level) (m : A -> message) (l : list A) :
  writes (map (fun r => Logged lv (m r)) l) = [].
Proof. induction l; simpl; auto. Qed.

(** The files after a run of [remove_unused_imports] without [dry_run]. *)
Lemma remove_files (filepath : string) (unused : list record) (w : world) :
  unused <> [] ->
  files (remove_unused_imports filepath unused false w)
  = match open_read filepath w with
    | inr content =>
        <[filepath :=
            Regular (to_disk (os w)
                       (writelines (new_lines (readlines content) unused)))]>
          (files w)
    | inl _ => files w
    end.
Proof.
  intros Hne. destruct (open_read filepath w) as [e|content] eqn:Hread.
  - destruct unused; [contradiction|].
    unfold remove_unused_imports. now rewrite Hread.
  - now apply remove_rewrites.
Qed.

(** What [remove_unused_imports] does to the store: nothing, or one write
    of the kept lines to a regular file. *)
Lemma remove_effect (filepath : string) (unused : list record)
    (dry_run : bool) (w : world) :
  (files (remove_unused_imports filepath unused dry_run w) = files w /\
   writes (trace (remove_unused_imports filepath unused dry_run w))
   = writes (trace w))
  \/
  (dry_run = false /\ unused <> [] /\
   exists disk new,
     files w !! filepath = Some (Regular disk) /\
     files (remove_unused_imports filepath unused dry_run w)
     = <[filepath := Regular new]> (files w) /\
     writes (trace (remove_unused_imports filepath unused dry_run w))
     = writes (trace w) ++ [(filepath, new)]).
Proof.
  destruct dry_run; [left; apply remove_dry_run|].
  destruct unused as [|r unused].
  { left. rewrite remove_nothing. now rewrite logging_writes. }
  destruct (open_read filepath w) as [e|content] eqn:Hread.
  - left. unfold remove_unused_imports. rewrite Hread.
    now rewrite logging_writes.
  - right. split; [reflexivity|]. split; [discriminate|].
    destruct (open_read_inv _ _ _ Hread) as (disk & Hfile & _).
    exists disk. eexists. split; [exact Hfile|].
    split; [apply (remove_rewrites _ _ _ _ Hread); discriminate|].
    rewrite (remove_writes _ _ _ _ Hread) by discriminate.
    rewrite writes_app. simpl writes at 2.
    now rewrite (writes_of_logs INFO
                   (fun r : Z * string =>
                      MsgRemovedLine (fst r) (strip (snd r)))).
Qed.

Section Runs.

Variable ast_parse : string -> string + node.

(** What a run of [main] does to the store. *)
Lemma main_effect (args : arguments) (w : world) :
  (files (snd (main ast_parse args w)) = files w /\
   writes (trace (snd (main ast_parse args w))) = writes (trace w))
  \/
  (arg_dry_run args = false /\
   exists content text,
     files w !! arg_filepath args = Some (Regular content) /\
     files (snd (main ast_parse args w))
     = <[arg_filepath args := Regular text]> (files w) /\
     writes (trace (snd (main ast_parse args w)))
     = writes (trace w) ++ [(arg_filepath args, text)]).
Proof.
  destruct (files w !! arg_filepath args) as [e|] eqn:Hfile.
  - destruct (main_existing ast_parse args w) as (w1 & Hf1 & Hw1 & ->);
      [eauto|].
    cbn [snd].
    destruct (find_keeps_files ast_parse (arg_filepath args)
                (arg_aggressive args) w1) as [Hf2 Hw2].
    cbv zeta in Hf2, Hw2.
    match goal with
    | |- context [remove_unused_imports ?fp ?u ?d ?w2] =>
        destruct (remove_effect fp u d w2)
          as [[Hf Hw]|(Hdry & _ & content & new & Hc & Hf & Hw)]
    end.
    + left. rewrite Hf, Hw, Hf2, Hw2. auto.
    + right. split; [exact Hdry|].
      rewrite Hf2, Hf1 in Hc. rewrite Hf2, Hf1 in Hf.
      rewrite Hw2, Hw1 in Hw.
      exists content, new. split; [congruence|].
      split; [exact Hf | exact Hw].
  - left. rewrite (main_missing ast_parse args w Hfile). cbn [snd].
    now rewrite logging_writes.
Qed.

End Runs.

(** X8 (lines 123-133): on a readable file and a non-empty list, the dry
    run logs its header and then one line per record, in list order and
    with the stripped text; the real run performs its one write first and
    then reports the same line numbers and texts in the same order.
    [content] is the text read from the file. *)
Theorem reports_follow_records (filepath content : string)
    (unused : list record) (w : world) :
  open_read filepath w = inr content ->
  unused <> [] ->
  trace (remove_unused_imports filepath unused true w)
  = trace w
    ++ Logged INFO MsgDryRunHeader
    :: map (fun r => Logged INFO (MsgDryRunLine (fst r) (strip (snd r))))
           unused
  /\ trace (remove_unused_imports filepath unused false w)
     = trace w
       ++ Wrote filepath
            (to_disk (os w)
               (writelines
                  (lines_except (readlines content) (map fst unused))))
       :: Logged INFO (MsgRemovedFrom filepath)
       :: map (fun r => Logged INFO (MsgRemovedLine (fst r) (strip (snd r))))
              unused.
Proof.
  intros Hread Hne. split.
  - unfold remove_unused_imports.
    destruct unused as [|r unused]; [contradiction|].
    rewrite Hread. cbv beta iota zeta.
    rewrite (logging_loop_trace INFO
               (fun r : Z * string => MsgDryRunLine (fst r) (strip (snd r)))).
    simpl trace. now rewrite <- app_assoc.
  - rewrite (remove_writes _ _ _ _ Hread Hne). now rewrite new_lines_except.
Qed.

Lemma reports_follow_records_witness :
  trace (remove_unused_imports "m.py" [(1%Z, " import os ")] true
           (one_file "m.py" two_imports_text))
  = trace (one_file "m.py" two_imports_text)
    ++ Logged INFO MsgDryRunHeader
    :: map (fun r => Logged INFO (MsgDryRunLine (fst r) (strip (snd r))))
           [(1%Z, " import os ")]
  /\ trace (remove_unused_imports "m.py" [(1%Z, " import os ")] false
              (one_file "m.py" two_imports_text))
     = trace (one_file "m.py" two_imports_text)
       ++ Wrote "m.py"
            (to_disk (os (one_file "m.py" two_imports_text))
               (writelines (lines_except (readlines two_imports_text)
                              (map fst [(1%Z, " import os ")]))))
       :: Logged INFO (MsgRemovedFrom "m.py")
       :: map (fun r => Logged INFO (MsgRemovedLine (fst r) (strip (snd r))))
              [(1%Z, " import os ")].
Proof.
  apply (reports_follow_records "m.py" two_imports_text
           [(1%Z, " import os ")] (one_file "m.py" two_imports_text)).
  - vm_compute; reflexivity.
  - discriminate.
Defined.

(** X9 (lines 115-121, 128-130): which lines are deleted depends only on
    the set of line numbers of the records; their texts, their order and
    their repetitions do not matter. *)
Theorem removal_depends_on_line_numbers (filepath : string)
    (unused1 unused2 : list record) (w : world) :
  unused1 <> [] -> unused2 <> [] ->
  (forall x, In x (map fst unused1) <-> In x (map fst unused2)) ->
  files (remove_unused_imports filepath unused1 false w)
  = files (remove_unused_imports filepath unused2 false w).
Proof.
  intros H1 H2 Hsame. rewrite !remove_files by assumption.
  destruct (open_read filepath w) as [e|content]; try reflexivity.
  do 4 f_equal. rewrite !new_lines_except, !lines_except_enumerate. f_equal.
  apply list_filter_iff. intros p.
  rewrite !list_elem_of_In. now rewrite Hsame.
Qed.

Lemma removal_depends_on_line_numbers_witness :
  files (remove_unused_imports "m.py"
           [(2%Z, "import os"); (1%Z, "import os"); (2%Z, "x")] false
           (one_file "m.py" two_imports_text))
  = files (remove_unused_imports "m.py"
             [(1%Z, "import os"); (2%Z, "import sys")] false
             (one_file "m.py" two_imports_text)).
Proof.
  apply (removal_depends_on_line_numbers "m.py"
           [(2%Z, "import os"); (1%Z, "import os"); (2%Z, "x")]
           [(1%Z, "import os"); (2%Z, "import sys")]
           (one_file "m.py" two_imports_text)).
  - discriminate.
  - discriminate.
  - intros x. simpl. tauto.
Defined.

Lemma lines_except_out_of_range (lines : list string) (numbers : list Z)
    (start : Z) :
  (forall x, In x numbers ->
             (x < start \/ start + Z.of_nat (length lines) <= x)%Z) ->
  map snd (filter (fun p => fst p ∉ numbers) (enumerate lines start)) = lines.
Proof.
  revert start. induction lines as [|l lines IH]; intros start Hout.
  - reflexivity.
  - simpl enumerate. rewrite filter_cons_True.
    + simpl. f_equal. apply IH. intros x Hx.
      specialize (Hout x Hx). simpl length in Hout. lia.
    + simpl. rewrite list_elem_of_In. intros Hin.
      specialize (Hout start Hin). simpl length in Hout. lia.
Qed.

(** X10 (lines 119-130): records whose line numbers all lie outside
    [1 .. number of lines] delete nothing; the file is still written once,
    with the text that was read, so that the text read from it afterwards
    is the same; when every terminator of the file is [os.linesep] the
    file is unchanged on disk. *)
Theorem removal_out_of_range_keeps_text (filepath disk : string)
    (unused : list record) (w : world) :
  files w !! filepath = Some (Regular disk) ->
  unused <> [] ->
  (forall x, In x (map fst unused) ->
             (x < 1 \/
              Z.of_nat (length (readlines (universal_newlines disk))) < x)%Z) ->
  files (remove_unused_imports filepath unused false w)
  = <[filepath := Regular (to_disk (os w) (universal_newlines disk))]>
      (files w)
  /\ writes (trace (remove_unused_imports filepath unused false w))
     = writes (trace w)
       ++ [(filepath, to_disk (os w) (universal_newlines disk))]
  /\ open_read filepath (remove_unused_imports filepath unused false w)
     = open_read filepath w
  /\ (native_newlines (os w) disk ->
      files (remove_unused_imports filepath unused false w) = files w).
Proof.
  intros Hfile Hne Hout.
  pose proof (open_read_regular _ _ _ Hfile) as Hread.
  set (text := universal_newlines disk) in *.
  assert (Hkept : writelines (new_lines (readlines text) unused) = text).
  { rewrite new_lines_except, lines_except_enumerate.
    rewrite lines_except_out_of_range; [apply writelines_readlines|].
    intros x Hx. specialize (Hout x Hx). lia. }
  assert (Hfiles : files (remove_unused_imports filepath unused false w)
                   = <[filepath := Regular (to_disk (os w) text)]> (files w))
    by (rewrite (remove_rewrites _ _ _ _ Hread Hne); now rewrite Hkept).
  split; [exact Hfiles|]. split; [|split].
  - rewrite (remove_writes _ _ _ _ Hread Hne), Hkept, writes_app.
    simpl writes at 2.
    now rewrite (writes_of_logs INFO
                   (fun r : Z * string =>
                      MsgRemovedLine (fst r) (strip (snd r)))).
  - rewrite Hread. unfold open_read. rewrite Hfiles, lookup_insert_eq.
    f_equal. apply universal_newlines_to_disk.
    apply universal_newlines_no_cr.
  - intros Hnative. rewrite Hfiles. unfold native_newlines in Hnative.
    fold text in Hnative. rewrite Hnative. now apply insert_id.
Qed.

Lemma removal_out_of_range_keeps_text_witness :
  files (remove_unused_imports "m.py" [(0%Z, "x"); (3%Z, "y")] false
           (one_file "m.py" two_imports_text))
  = files (one_file "m.py" two_imports_text)
  /\ writes (trace (remove_unused_imports "m.py" [(0%Z, "x"); (3%Z, "y")]
                      false (one_file "m.py" two_imports_text)))
     = writes (trace (one_file "m.py" two_imports_text))
       ++ [("m.py", two_imports_text)].
Proof.
  destruct (removal_out_of_range_keeps_text "m.py" two_imports_text
              [(0%Z, "x"); (3%Z, "y")] (one_file "m.py" two_imports_text))
    as (_ & Hwrites & _ & Hnative).
  - vm_compute; reflexivity.
  - discriminate.
  - intros x [<-|[<-|[]]]; vm_compute; [left | right]; reflexivity.
  - split; [apply Hnative; vm_compute; reflexivity|].
    rewrite Hwrites. vm_compute; reflexivity.
Defined.

Section RunProperties.

Variable ast_parse : string -> string + node.

(** X11 (lines 140-165): with [--dry-run], a whole run of [main] leaves
    every file as it was and performs no write, whatever the file holds. *)
Theorem main_with_dry_run_is_read_only (args : arguments) (w : world) :
  arg_dry_run args = true ->
  files (snd (main ast_parse args w)) = files w
  /\ writes (trace (snd (main ast_parse args w))) = writes (trace w).
Proof.
  intros Hdry.
  destruct (main_effect ast_parse args w) as [H|(Hfalse & _)];
    [exact H | congruence].
Qed.

(** X12 (lines 140-165): a run of [main] never touches another path than
    its target, and the target keeps its kind: it is left as it was, or it
    was a regular file and is a regular file afterwards. *)
Theorem main_touches_target_only (args : arguments) (w : world) :
  (forall p, p <> arg_filepath args ->
             files (snd (main ast_parse args w)) !! p = files w !! p)
  /\ (files (snd (main ast_parse args w)) !! arg_filepath args
      = files w !! arg_filepath args
      \/ exists content text,
           files w !! arg_filepath args = Some (Regular content) /\
           files (snd (main ast_parse args w)) !! arg_filepath args
           = Some (Regular text)).
Proof.
  destruct (main_effect ast_parse args w)
    as [[Hf _]|(_ & content & text & Hc & Hf & _)]; rewrite Hf.
  - auto.
  - split.
    + intros p Hp. now rewrite lookup_insert_ne.
    + right. exists content, text. now rewrite lookup_insert_eq.
Qed.

(** X13 (lines 128-130, 140-165): a run of [main] writes at most once; the
    write goes to the target, happens only without [--dry-run], and the
    text written is the text of the file afterwards. *)
Theorem main_writes_at_most_once (args : arguments) (w : world) :
  writes (trace (snd (main ast_parse args w))) = writes (trace w)
  \/ exists text,
       arg_dry_run args = false /\
       writes (trace (snd (main ast_parse args w)))
       = writes (trace w) ++ [(arg_filepath args, text)] /\
       files (snd (main ast_parse args w)) !! arg_filepath args
       = Some (Regular text).
Proof.
  destruct (main_effect ast_parse args w)
    as [[_ Hw]|(Hdry & content & text & _ & Hf & Hw)].
  - now left.
  - right. exists text. rewrite Hf, lookup_insert_eq. auto.
Qed.

(** X14 (lines 48-62): [find_unused_imports] never changes a file and never
    writes; when it returns no tree, its list is empty and it has logged
    exactly one error; when it returns a tree, it has logged nothing. *)
Theorem detection_is_read_only (filepath : string) (aggressive : bool)
    (w : world) :
  files (snd (find_unused_imports ast_parse filepath aggressive w)) = files w
  /\ writes (trace (snd (find_unused_imports ast_parse filepath aggressive w)))
     = writes (trace w)
  /\ match snd (fst (find_unused_imports ast_parse filepath aggressive w)) with
     | None =>
         fst (fst (find_unused_imports ast_parse filepath aggressive w)) = []
         /\ exists m,
              snd (find_unused_imports ast_parse filepath aggressive w)
              = logging ERROR m w
     | Some _ =>
         snd (find_unused_imports ast_parse filepath aggressive w) = w
     end.
Proof.
  destruct (find_keeps_files ast_parse filepath aggressive w) as [Hf Hw].
  split; [exact Hf|]. split; [exact Hw|].
  unfold find_unused_imports.
  destruct (open_read filepath w) as [[]|content]; simpl; eauto.
  destruct (ast_parse content); simpl; eauto.
Qed.

(** X15 (lines 54-56, 104-106, 152-161): when the target is a directory,
    [main] logs the read error and then [No unused imports found.], changes
    nothing and ends with status 0. *)
Theorem main_on_directory (args : arguments) (w : world) :
  files w !! arg_filepath args = Some Directory ->
  fst (main ast_parse args w) = 0%Z
  /\ files (snd (main ast_parse args w)) = files w
  /\ trace (snd (main ast_parse args w))
     = trace w
       ++ (if endswith (arg_filepath args) ".py" then []
           else [Logged WARNING (MsgNoPyExtension (arg_filepath args))])
       ++ [Logged ERROR
             (MsgErrorReading (arg_filepath args) IsADirectoryError);
           Logged INFO MsgNoUnusedImports].
Proof.
  intros Hdir. unfold main, exists_path.
  rewrite bool_decide_eq_true_2 by (rewrite Hdir; eauto). cbn [negb].
  unfold find_unused_imports, open_read.
  destruct (endswith (arg_filepath args) ".py"); simpl files;
    rewrite Hdir; simpl; rewrite <- ?app_assoc; auto.
Qed.

End RunProperties.

Lemma main_with_dry_run_is_read_only_witness :
  files (snd (main parse_samples (Args "m.py" true false)
                (one_file "m.py" two_imports_text)))
  = files (one_file "m.py" two_imports_text)
  /\ writes (trace (snd (main parse_samples (Args "m.py" true false)
                           (one_file "m.py" two_imports_text))))
     = writes (trace (one_file "m.py" two_imports_text)).
Proof.
  apply (main_with_dry_run_is_read_only parse_samples (Args "m.py" true false)
           (one_file "m.py" two_imports_text)).
  reflexivity.
Defined.

Lemma main_on_directory_witness :
  fst (main parse_samples (Args "pkg" false false) directory_world) = 0%Z
  /\ files (snd (main parse_samples (Args "pkg" false false) directory_world))
     = files directory_world
  /\ trace (snd (main parse_samples (Args "pkg" false false) directory_world))
     = trace directory_world
       ++ (if endswith "pkg" ".py" then []
           else [Logged WARNING (MsgNoPyExtension "pkg")])
       ++ [Logged ERROR (MsgErrorReading "pkg" IsADirectoryError);
           Logged INFO MsgNoUnusedImports].
Proof.
  apply (main_on_directory parse_samples (Args "pkg" false false)
           directory_world).
  vm_compute; reflexivity.
Defined.

(** X16 (lines 82-91): a star import ([from m import *]) binds the alias
    [*]; as long as no node of the tree is named [*], it is reported as
    unused, whichever names of the module the file uses. *)
Theorem star_import_is_reported (content : string) (tree : node)
    (module : option string) (names : list alias)
    (level lineno col_offset end_col_offset : Z) :
  occurs_in tree
    (ImportFrom module names level lineno col_offset end_col_offset) ->
  In (Alias "*" None) names ->
  (forall n, occurs_in tree n -> referenced_name n <> Some "*") ->
  In (lineno, import_statement content lineno)
     (unused_imports_of content tree).
Proof.
  intros Hocc Hstar Hnone. apply in_unused_imports_of.
  exists (ImportFrom module names level lineno col_offset end_col_offset),
         (Alias "*" None).
  repeat split; try assumption.
  intros Hin. apply collect_names_iff in Hin.
  destruct Hin as (n & Hn & Hname). exact (Hnone n Hn Hname).
Qed.

Lemma star_import_is_reported_witness :
  In (1%Z, import_statement star_text 1) (unused_imports_of star_text star_tree).
Proof.
  apply (star_import_is_reported star_text star_tree (Some "os")
           [Alias "*" None] 0 1 0 16).
  - apply walk_occurs_in. vm_compute.
    repeat first [left; reflexivity | right].
  - left; reflexivity.
  - intros n Hn. apply occurs_in_walk in Hn. vm_compute in Hn.
    repeat (destruct Hn as [<-|Hn]; [vm_compute; discriminate|]).
    destruct Hn.
Defined.

(** X17 (lines 80-92, 104-106, 160-161): when the effective local name of
    every alias of every import statement is in the set of names, the list
    of records is empty and a run of [main], with or without [--dry-run],
    changes no file and writes nothing.  [content] is the text read from
    the file. *)
Theorem all_imports_used_no_rewrite (ast_parse : string -> string + node)
    (args : arguments) (w : world) (content : string) (tree : node) :
  open_read (arg_filepath args) w = inr content ->
  ast_parse content = inr tree ->
  (forall stmt a, occurs_in tree stmt -> is_import stmt = true ->
                  In a (stmt_names stmt) ->
                  imported_name a ∈ collect_names tree) ->
  fst (fst (find_unused_imports ast_parse (arg_filepath args)
              (arg_aggressive args) w)) = []
  /\ files (snd (main ast_parse args w)) = files w
  /\ writes (trace (snd (main ast_parse args w))) = writes (trace w).
Proof.
  intros Hfile Hparse Hused.
  assert (Hnone : fst (fst (find_unused_imports ast_parse (arg_filepath args)
                              (arg_aggressive args) w)) = []).
  { rewrite (find_parsed _ _ _ _ _ _ Hfile Hparse). cbn [fst].
    destruct (unused_imports_of content tree) as [|[lineno text] rest] eqn:Hu;
      [reflexivity|].
    assert (Hin : In (lineno, text) (unused_imports_of content tree))
      by (rewrite Hu; now left).
    apply in_unused_imports_of in Hin.
    destruct Hin as (stmt & a & Hocc & Himp & Ha & Hx & _).
    destruct (Hx (Hused stmt a Hocc Himp Ha)). }
  split; [exact Hnone|]. now apply main_nothing_found.
Qed.

Lemma all_imports_used_no_rewrite_witness :
  fst (fst (find_unused_imports parse_samples "m.py" false
              (one_file "m.py" alias_text))) = []
  /\ files (snd (main parse_samples plain_args (one_file "m.py" alias_text)))
     = files (one_file "m.py" alias_text)
  /\ writes (trace (snd (main parse_samples plain_args
                           (one_file "m.py" alias_text))))
     = writes (trace (one_file "m.py" alias_text)).
Proof.
  apply (all_imports_used_no_rewrite parse_samples plain_args
           (one_file "m.py" alias_text) alias_text alias_tree).
  - vm_compute; reflexivity.
  - vm_compute; reflexivity.
  - intros stmt a Hocc Himp Ha. apply occurs_in_walk in Hocc.
    vm_compute in Hocc.
    repeat (destruct Hocc as [<-|Hocc];
            [try discriminate Himp;
             destruct Ha as [<-|[]];
             apply (bool_decide_unpack _); vm_compute; exact I|]).
    destruct Hocc.
Defined.

End Extras.
